(** * ComparePlayer: the split-screen comparison player

    A shallow embedding of [ComparePlayer] (the revision with touch and
    mouse dragging, audio cross-fade and the imperative handle) and the
    properties its specification states about it.

    Conventions of the embedding.

    - A JavaScript number is [JS.num]: NaN, the two infinities, or a
      finite value carried as an exact rational.  Rounding of binary64
      arithmetic and the sign of zero are abstracted; NaN and infinity
      propagation follow IEEE 754 as JavaScript does.
    - [useState] cells are fields of the record [Player]; [useRef] cells
      are [option] fields ([None] is a ref whose [current] is [null]).
    - A handler is the closure of the latest render: React commits a
      queued update (and runs the effects whose dependencies changed)
      before the next discrete event is delivered, so a handler reads the
      state its predecessor left.  [step] is one event: the handler, then
      the commit.
    - [play()] and [pause()] calls are recorded in the trace [issued];
      the promise a [play()] returns is always caught by the source and
      has no further effect.
    - [preventDefault] and [stopPropagation] act on the event, not on the
      player, and are left out; the window listeners, attached only
      while a drag is in progress, deliver a subset of the events the
      handlers are proved about. *)

From Stdlib Require Import QArith Qabs Qround Lqa Lia ZArith Bool List String Ascii.
From Stdlib Require Import DecimalString DecimalN.
Import ListNotations.

Open Scope Q_scope.

(** ** JavaScript numbers and values *)

Module JS.

Inductive num : Type :=
| NaN
| NInf
| Fin (q : Q)
| PInf.

Definition Qlt_bool (a b : Q) : bool := negb (Qle_bool b a).

(** [isNaN(x)] on a number. *)
Definition isNaN (x : num) : bool :=
  match x with NaN => true | _ => false end.

(** [a - b] *)
Definition sub (a b : num) : num :=
  match a, b with
  | NaN, _ | _, NaN => NaN
  | PInf, PInf | NInf, NInf => NaN
  | PInf, _ | _, NInf => PInf
  | NInf, _ | _, PInf => NInf
  | Fin x, Fin y => Fin (x - y)
  end.

(** Sign of a finite operand against an infinite one, for [*] and [/]. *)
Definition signed_inf (positive : bool) : num :=
  if positive then PInf else NInf.

(** [a * b] *)
Definition mul (a b : num) : num :=
  match a, b with
  | NaN, _ | _, NaN => NaN
  | Fin x, Fin y => Fin (x * y)
  | PInf, PInf | NInf, NInf => PInf
  | PInf, NInf | NInf, PInf => NInf
  | PInf, Fin y | Fin y, PInf =>
      if Qeq_bool y 0 then NaN else signed_inf (Qlt_bool 0 y)
  | NInf, Fin y | Fin y, NInf =>
      if Qeq_bool y 0 then NaN else signed_inf (Qlt_bool y 0)
  end.

(** [a / b]; a finite non-zero value over zero is an infinity, [0/0]
    is NaN. *)
Definition div (a b : num) : num :=
  match a, b with
  | NaN, _ | _, NaN => NaN
  | Fin x, Fin y =>
      if Qeq_bool y 0
      then (if Qeq_bool x 0 then NaN else signed_inf (Qlt_bool 0 x))
      else Fin (x / y)
  | Fin _, (PInf | NInf) => Fin 0
  | (PInf | NInf), (PInf | NInf) => NaN
  | PInf, Fin y => signed_inf (Qle_bool 0 y)
  | NInf, Fin y => signed_inf (Qlt_bool y 0)
  end.

(** [Math.abs(a)] *)
Definition Math_abs (a : num) : num :=
  match a with
  | NaN => NaN
  | NInf | PInf => PInf
  | Fin x => Fin (Qabs x)
  end.

(** [a > b]; every comparison with NaN is false. *)
Definition gt (a b : num) : bool :=
  match a, b with
  | NaN, _ | _, NaN => false
  | PInf, PInf => false
  | PInf, _ => true
  | _, PInf => false
  | NInf, _ => false
  | Fin _, NInf => true
  | Fin x, Fin y => Qlt_bool y x
  end.

(** [Math.max(a, b)]; NaN if either argument is NaN. *)
Definition Math_max (a b : num) : num :=
  match a, b with
  | NaN, _ | _, NaN => NaN
  | _, _ => if gt b a then b else a
  end.

(** [Math.min(a, b)]; NaN if either argument is NaN. *)
Definition Math_min (a b : num) : num :=
  match a, b with
  | NaN, _ | _, NaN => NaN
  | _, _ => if gt a b then b else a
  end.

(** [Object.is(a, b)] on numbers, the comparison React applies to
    state values and effect dependencies. *)
Definition Object_is (a b : num) : bool :=
  match a, b with
  | NaN, NaN | NInf, NInf | PInf, PInf => true
  | Fin x, Fin y => Qeq_bool x y
  | _, _ => false
  end.

(** *** Values and [Number(v)]

    The [value] of an event target is a string in a browser and can be
    anything in a synthetic event; [Number] is ECMAScript's ToNumber
    on the primitive values, with StringToNumber on ASCII text. *)

Inductive value : Type :=
| Undefined
| Null
| Bool (b : bool)
| Num (n : num)
| Str (s : string).

Definition code (c : ascii) : Z := Z.of_nat (nat_of_ascii c).

(** StrWhiteSpaceChar, ASCII part: TAB, LF, VT, FF, CR, SP. *)
Definition is_space (c : ascii) : bool :=
  let n := code c in
  (((9 <=? n) && (n <=? 13)) || (n =? 32))%Z.

Fixpoint trim_start (s : list ascii) : list ascii :=
  match s with
  | c :: s' => if is_space c then trim_start s' else s
  | [] => []
  end.

Definition trim (s : list ascii) : list ascii :=
  rev (trim_start (rev (trim_start s))).

(** The digit a character denotes in [base], if any. *)
Definition digit_of (base : Z) (c : ascii) : option Z :=
  let n := code c in
  let d :=
    (if (48 <=? n) && (n <=? 57) then Some (n - 48)
     else if (97 <=? n) && (n <=? 102) then Some (n - 87)
     else if (65 <=? n) && (n <=? 70) then Some (n - 55)
     else None)%Z in
  match d with
  | Some v => if (v <? base)%Z then Some v else None
  | None => None
  end.

(** Longest prefix of digits: its value, its length, the rest. *)
Fixpoint digits (base acc : Z) (count : nat) (s : list ascii)
  : Z * nat * list ascii :=
  match s with
  | c :: s' =>
      match digit_of base c with
      | Some d => digits base (acc * base + d)%Z (S count) s'
      | None => (acc, count, s)
      end
  | [] => (acc, count, [])
  end.

(** NonDecimalIntegerLiteral after its prefix: digits to the end. *)
Definition radix_literal (base : Z) (s : list ascii) : num :=
  match digits base 0 0 s with
  | (n, S _, []) => Fin (inject_Z n)
  | _ => NaN
  end.

(** ExponentPart, optional: the exponent and the rest, or [None] when
    an indicator is not followed by a SignedInteger. *)
Definition exponent_part (s : list ascii) : option (Z * list ascii) :=
  match s with
  | ("e" | "E")%char :: s' =>
      let (negative, s'') :=
        match s' with
        | "-"%char :: t => (true, t)
        | "+"%char :: t => (false, t)
        | _ => (false, s')
        end in
      match digits 10 0 0 s'' with
      | (_, O, _) => None
      | (e, S _, rest) => Some (if negative then (- e)%Z else e, rest)
      end
  | _ => Some (0%Z, s)
  end.

(** StrUnsignedDecimalLiteral. *)
Definition unsigned_decimal (s : list ascii) : num :=
  if list_eq_dec ascii_dec s (list_ascii_of_string "Infinity") then PInf
  else
    let '(int, ni, after_int) := digits 10 0 0 s in
    let '(mant, nf, after_frac) :=
      match after_int with
      | "."%char :: t => digits 10 int 0 t
      | _ => (int, O, after_int)
      end in
    match (ni + nf)%nat, exponent_part after_frac with
    | S _, Some (e, []) =>
        Fin (Qred (inject_Z mant * Qpower 10 (e - Z.of_nat nf)))
    | _, _ => NaN
    end.

Definition neg (a : num) : num :=
  match a with
  | NaN => NaN
  | NInf => PInf
  | PInf => NInf
  | Fin x => Fin (- x)
  end.

(** StringToNumber: the trimmed text as a StrNumericLiteral, [0] for
    empty text, NaN when it is not a literal. *)
Definition StringToNumber (s : string) : num :=
  match trim (list_ascii_of_string s) with
  | [] => Fin 0
  | "0"%char :: ("x" | "X")%char :: t => radix_literal 16 t
  | "0"%char :: ("o" | "O")%char :: t => radix_literal 8 t
  | "0"%char :: ("b" | "B")%char :: t => radix_literal 2 t
  | "+"%char :: t => unsigned_decimal t
  | "-"%char :: t => neg (unsigned_decimal t)
  | t => unsigned_decimal t
  end.

(** [Number(v)] *)
Definition Number (v : value) : num :=
  match v with
  | Undefined => NaN
  | Null => Fin 0
  | Bool true => Fin 1
  | Bool false => Fin 0
  | Num n => n
  | Str s => StringToNumber s
  end.

End JS.

(** ** The parts of the DOM the component touches *)

Module DOM.

(** An element as the handlers see it: its class list and the class
    lists of its ancestors, nearest first. *)
Record Element : Type := mkEl {
  classList : list string;
  ancestors : list (list string)
}.

(** [classList.contains(cls)] *)
Definition contains (cls : string) (cl : list string) : bool :=
  existsb (String.eqb cls) cl.

Fixpoint closest_in (cls : string) (chain : list (list string))
  : option Element :=
  match chain with
  | [] => None
  | cl :: up => if contains cls cl then Some (mkEl cl up)
                else closest_in cls up
  end.

(** [e.closest('.cls')]: the element itself or its nearest ancestor
    carrying the class, [None] for [null]. *)
Definition closest (cls : string) (e : Element) : option Element :=
  closest_in cls (classList e :: ancestors e).

(** The fields of [getBoundingClientRect()] the component reads. *)
Record DOMRect : Type := mkRect { left : JS.num; width : JS.num }.

Module Touch.
Record t : Type := mk { clientX : JS.num }.
End Touch.

(** What the handlers read of a mouse event and of a touch event. *)
Module MouseEvent.
Record t : Type := mk { target : Element; clientX : JS.num }.
End MouseEvent.

Module TouchEvent.
Record t : Type := mk { target : Element; touches : list Touch.t }.
End TouchEvent.

Record HTMLVideoElement : Type := mkVideo {
  src : string;
  poster : string;
  currentTime : JS.num;
  volume : JS.num;
  muted : bool
}.

Definition set_currentTime (t : JS.num) (v : HTMLVideoElement) :=
  mkVideo (src v) (poster v) t (volume v) (muted v).

Definition set_muted (m : bool) (v : HTMLVideoElement) :=
  mkVideo (src v) (poster v) (currentTime v) (volume v) m.

(** [v.volume = x].  The setter of a media element throws on a value
    that is not finite (TypeError) or lies outside 0..1
    (IndexSizeError); [None] is the throw. *)
Definition set_volume (x : JS.num) (v : HTMLVideoElement)
  : option HTMLVideoElement :=
  match x with
  | JS.Fin q =>
      if Qle_bool 0 q && Qle_bool q 1
      then Some (mkVideo (src v) (poster v) (currentTime v) x (muted v))
      else None
  | _ => None
  end.

(** A surface puts out sound when it is not muted and has gain. *)
Definition audible (v : HTMLVideoElement) : bool :=
  negb (muted v) && JS.gt (volume v) (JS.Fin 0).

End DOM.

(** ** The component *)

Module ComparePlayer.
Import JS DOM.

Inductive Surface : Type := A | B.

(** A playback command sent to a surface. *)
Inductive Command : Type :=
| play (target : Surface)
| pause (target : Surface).

Record Player : Type := mkPlayer {
  (* useState *)
  sliderValue : num;
  isPlaying : bool;
  isMuted : bool;
  isDragging : bool;
  (* useRef *)
  videoARef : option HTMLVideoElement;
  videoBRef : option HTMLVideoElement;
  containerRef : option DOMRect;
  (* the play() and pause() calls made so far, oldest first *)
  issued : list Command
}.

Definition setSliderValue (x : num) (s : Player) : Player :=
  mkPlayer x (isPlaying s) (isMuted s) (isDragging s)
           (videoARef s) (videoBRef s) (containerRef s) (issued s).

Definition setIsPlaying (b : bool) (s : Player) : Player :=
  mkPlayer (sliderValue s) b (isMuted s) (isDragging s)
           (videoARef s) (videoBRef s) (containerRef s) (issued s).

Definition setIsMuted (b : bool) (s : Player) : Player :=
  mkPlayer (sliderValue s) (isPlaying s) b (isDragging s)
           (videoARef s) (videoBRef s) (containerRef s) (issued s).

Definition setIsDragging (b : bool) (s : Player) : Player :=
  mkPlayer (sliderValue s) (isPlaying s) (isMuted s) b
           (videoARef s) (videoBRef s) (containerRef s) (issued s).

Definition with_videos (a b : HTMLVideoElement) (s : Player) : Player :=
  mkPlayer (sliderValue s) (isPlaying s) (isMuted s) (isDragging s)
           (Some a) (Some b) (containerRef s) (issued s).

Definition with_container (r : option DOMRect) (s : Player) : Player :=
  mkPlayer (sliderValue s) (isPlaying s) (isMuted s) (isDragging s)
           (videoARef s) (videoBRef s) r (issued s).

Definition issue (cs : list Command) (s : Player) : Player :=
  mkPlayer (sliderValue s) (isPlaying s) (isMuted s) (isDragging s)
           (videoARef s) (videoBRef s) (containerRef s) (issued s ++ cs).

(** How a handler ends: normally, or by a throw.  Either way it
    carries the state with the updates queued so far, which React
    commits all the same. *)
Inductive completion : Type :=
| Normal (s : Player)
| Throw (s : Player).

Definition state_of (c : completion) : Player :=
  match c with Normal s | Throw s => s end.

(** *** Pointer handlers *)

Definition calculatePosition (s : Player) (clientX : num) : num :=
  match containerRef s with
  | None => Fin 50
  | Some rect =>
      let x := sub clientX (left rect) in
      let percentage := mul (div x (width rect)) (Fin 100) in
      Math_max (Fin 0) (Math_min (Fin 100) percentage)
  end.

(** [e.touches[0]] is [undefined] on an empty list, and reading its
    [clientX] throws. *)
Definition handleTouchStart (e : TouchEvent.t) (s : Player) : completion :=
  let s := setIsDragging true s in
  match TouchEvent.touches e with
  | [] => Throw s
  | touch :: _ =>
      let position := calculatePosition s (Touch.clientX touch) in
      Normal (setSliderValue position s)
  end.

Definition handleTouchMove (e : TouchEvent.t) (s : Player) : completion :=
  if negb (isDragging s) then Normal s
  else
    match TouchEvent.touches e with
    | [] => Throw s
    | touch :: _ =>
        let position := calculatePosition s (Touch.clientX touch) in
        Normal (setSliderValue position s)
    end.

Definition handleTouchEnd (s : Player) : Player :=
  setIsDragging false s.

(** [e.target.closest('.compare-divider') ||
     e.target.classList.contains('compare-slider')] *)
Definition on_divider_area (target : Element) : bool :=
  match closest "compare-divider" target with
  | Some _ => true
  | None => contains "compare-slider" (classList target)
  end.

Definition handleMouseDown (e : MouseEvent.t) (s : Player) : Player :=
  if on_divider_area (MouseEvent.target e) then
    let s := setIsDragging true s in
    let position := calculatePosition s (MouseEvent.clientX e) in
    setSliderValue position s
  else s.

Definition handleMouseMove (e : MouseEvent.t) (s : Player) : Player :=
  if negb (isDragging s) then s
  else
    let position := calculatePosition s (MouseEvent.clientX e) in
    setSliderValue position s.

Definition handleMouseUp (s : Player) : Player :=
  setIsDragging false s.

(** *** The imperative handle *)

(** Both refs, when both are attached ([videoA && videoB]). *)
Definition videos (s : Player)
  : option (HTMLVideoElement * HTMLVideoElement) :=
  match videoARef s, videoBRef s with
  | Some a, Some b => Some (a, b)
  | _, _ => None
  end.

(** The [toggleMuted] of the handle a render creates: [isMuted] is the
    value that render captured. *)
Definition toggleMuted_of (isMuted : bool) (s : Player) : bool * Player :=
  let newMuted := negb isMuted in
  let s :=
    match negb newMuted, videos s with
    | true, Some _ => issue [play A; play B] s
    | _, _ => s
    end in
  let s := setIsMuted newMuted s in
  (negb newMuted, s).

(** The handle is rebuilt by every render, so the host calls the one
    of the latest render. *)
Definition toggleMuted (s : Player) : bool * Player :=
  toggleMuted_of (isMuted s) s.

Definition setMuted (muted : bool) (s : Player) : Player :=
  setIsMuted muted s.

(** The handle's [isMuted()], the spec's [queryMuted()]. *)
Definition queryMuted (s : Player) : bool := isMuted s.

Definition playVideos (s : Player) : Player :=
  match videos s with
  | Some _ => setIsPlaying true (issue [play A; play B] s)
  | None => s
  end.

(** *** Slider and click handlers *)

(** [value] is [e.target.value]. *)
Definition handleSliderChange (value : JS.value) (s : Player) : Player :=
  setSliderValue (Number value) s.

Definition togglePlayback (e : MouseEvent.t) (s : Player) : Player :=
  if isDragging s
     || contains "compare-slider" (classList (MouseEvent.target e))
  then s
  else setIsPlaying (negb (isPlaying s)) s.

(** *** Values derived at render

    [sliderValue] is always a number here, so the source's
    [sliderValue === undefined] is false. *)

Definition safeSliderValue (s : Player) : num :=
  if isNaN (sliderValue s) || false then Fin 50 else sliderValue s.

Definition clipPercentage (s : Player) : num :=
  sub (Fin 100) (safeSliderValue s).

(** *** Effects *)

(** The [timeupdate] listener of the Background surface (videoA). *)
Definition syncVideos (videoA videoB : HTMLVideoElement)
  : HTMLVideoElement * HTMLVideoElement :=
  if gt (Math_abs (sub (currentTime videoA) (currentTime videoB)))
        (Fin (1 # 10))
  then (videoA, set_currentTime (currentTime videoA) videoB)
  else (videoA, videoB).

(** Handle play/pause sync, dependencies [[isPlaying]]. *)
Definition playPauseEffect (s : Player) : Player :=
  match videos s with
  | None => s
  | Some _ =>
      if isPlaying s then issue [play A; play B] s
      else issue [pause A; pause B] s
  end.

(** Sync muted state to both videos, dependencies [[isMuted]]. *)
Definition mutedEffect (s : Player) : Player :=
  match videos s with
  | Some (videoA, videoB) =>
      with_videos (set_muted (isMuted s) videoA)
                  (set_muted (isMuted s) videoB) s
  | None => s
  end.

(** Audio cross-fade, dependencies [[sliderValue, isMuted]].  [None]
    when a volume setter throws: an error escaping an effect makes
    React take the component down. *)
Definition crossFadeEffect (s : Player) : option Player :=
  match videos s with
  | Some (videoA, videoB) =>
      if negb (isMuted s) then
        let safeValue :=
          if isNaN (sliderValue s) then Fin 50 else sliderValue s in
        let realityVolume := div safeValue (Fin 100) in
        let simulationVolume := sub (Fin 1) realityVolume in
        match set_volume simulationVolume videoA with
        | None => None
        | Some videoA =>
            match set_volume realityVolume videoB with
            | None => None
            | Some videoB => Some (with_videos videoA videoB s)
            end
        end
      else Some s
  | None => Some s
  end.

(** The [playVideos] closure of the auto-play effect; it runs in the
    effect and once more from [setTimeout]. *)
Definition autoPlay (s : Player) : Player :=
  setIsPlaying true (issue [play A; play B] s).

(** Auto-play on mount, no dependencies. *)
Definition autoPlayEffect (s : Player) : option Player :=
  match videos s with
  | Some (videoA, videoB) =>
      match set_volume (Fin (1 # 2)) videoA with
      | None => None
      | Some videoA =>
          match set_volume (Fin (1 # 2)) videoB with
          | None => None
          | Some videoB => Some (autoPlay (with_videos videoA videoB s))
          end
      end
  | None => Some s
  end.

(** The commit that follows a state update: the effects whose
    dependencies differ (by [Object.is]) from those of the previous
    render run in the order the component declares them. *)
Definition commit (prev next : Player) : option Player :=
  let same_playing := Bool.eqb (isPlaying prev) (isPlaying next) in
  let same_muted := Bool.eqb (isMuted prev) (isMuted next) in
  let same_slider := Object_is (sliderValue prev) (sliderValue next) in
  let s := if same_playing then next else playPauseEffect next in
  let s := if same_muted then s else mutedEffect s in
  if same_slider && same_muted then Some s else crossFadeEffect s.

(** *** Mounting *)

Definition default_posterA : string := "/images/spec_organic.jpeg".
Definition default_posterB : string := "/images/spec_synthetic.jpeg".

Definition or_default (p : option string) (d : string) : string :=
  match p with Some x => x | None => d end.

(** The state of the first render: the [useState] initial values, the
    refs attached to the rendered elements ([muted={isMuted}], a media
    element's volume starts at 1). *)
Definition firstRender (srcA srcB : string) (posterA posterB : option string)
           (rect : DOMRect) : Player :=
  let isMuted0 := true in
  mkPlayer (Fin 50) false isMuted0 false
    (Some (mkVideo srcA (or_default posterA default_posterA)
                   (Fin 0) (Fin 1) isMuted0))
    (Some (mkVideo srcB (or_default posterB default_posterB)
                   (Fin 0) (Fin 1) isMuted0))
    (Some rect) [].

(** Every effect runs once after the first render; the auto-play
    effect queues [setIsPlaying(true)], which is committed next. *)
Definition mount (srcA srcB : string) (posterA posterB : option string)
           (rect : DOMRect) : option Player :=
  let s := firstRender srcA srcB posterA posterB rect in
  let s := mutedEffect (playPauseEffect s) in
  match crossFadeEffect s with
  | None => None
  | Some s =>
      match autoPlayEffect s with
      | None => None
      | Some s' => commit s s'
      end
  end.

(** *** Events *)

Inductive Event : Type :=
| Change (value : JS.value)        (* the range input's onChange *)
| Click (e : MouseEvent.t)         (* the container's onClick *)
| MouseDown (e : MouseEvent.t)
| MouseMove (e : MouseEvent.t)
| MouseUp
| TouchStart (e : TouchEvent.t)
| TouchMove (e : TouchEvent.t)
| TouchEnd
| CallToggleMuted                  (* the handle, called by the host *)
| CallSetMuted (muted : bool)
| CallPlayVideos
| TimeUpdate (timeA timeB : num)   (* videoA's timeupdate *)
| AutoPlayTimer                    (* the delayed auto-play *)
| Resize (rect : DOMRect).         (* the layout changes *)

(** Playback has carried the surfaces to [timeA] and [timeB] when
    videoA reports its position; the listener then runs. *)
Definition timeupdate (timeA timeB : num) (s : Player) : Player :=
  match videos s with
  | Some (videoA, videoB) =>
      let (videoA, videoB) :=
        syncVideos (set_currentTime timeA videoA)
                   (set_currentTime timeB videoB) in
      with_videos videoA videoB s
  | None => s
  end.

Definition handle (ev : Event) (s : Player) : Player :=
  match ev with
  | Change value => handleSliderChange value s
  | Click e => togglePlayback e s
  | MouseDown e => handleMouseDown e s
  | MouseMove e => handleMouseMove e s
  | MouseUp => handleMouseUp s
  | TouchStart e => state_of (handleTouchStart e s)
  | TouchMove e => state_of (handleTouchMove e s)
  | TouchEnd => handleTouchEnd s
  | CallToggleMuted => snd (toggleMuted s)
  | CallSetMuted muted => setMuted muted s
  | CallPlayVideos => playVideos s
  | TimeUpdate timeA timeB => timeupdate timeA timeB s
  | AutoPlayTimer => autoPlay s
  | Resize rect => with_container (Some rect) s
  end.

(** One event: its handler, then the commit. *)
Definition step (s : Player) (ev : Event) : option Player :=
  commit s (handle ev s).

Fixpoint run (s : Player) (evs : list Event) : option Player :=
  match evs with
  | [] => Some s
  | ev :: evs' =>
      match step s ev with
      | Some s' => run s' evs'
      | None => None
      end
  end.

(** The states a mounted player can be in. *)
Inductive reachable : Player -> Prop :=
| reach_mount srcA srcB posterA posterB rect s :
    mount srcA srcB posterA posterB rect = Some s -> reachable s
| reach_step s ev s' :
    reachable s -> step s ev = Some s' -> reachable s'.

End ComparePlayer.

(** ** What the specification says, in its own words *)

Module Spec.
Import JS.

(** [clamp(lo, hi, x)] on real numbers. *)
Definition clamp (lo hi x : Q) : Q :=
  if Qlt_bool x lo then lo else if Qlt_bool hi x then hi else x.

(** The specification's [setDividerPosition]: the stored position is
    [clamp(0, 100, numeric(value) or 50)], where a value that is not
    numeric counts as 50. *)
Definition setDividerPosition (value : JS.value) : num :=
  match Number value with
  | NaN => Fin 50
  | NInf => Fin 0
  | PInf => Fin 100
  | Fin q => Fin (clamp 0 100 q)
  end.

(** [a] is the finite number [q]. *)
Definition equals (a : num) (q : Q) : Prop :=
  match a with Fin x => x == q | _ => False end.

End Spec.

(** ** Sample inputs *)

Module Sample.
Import JS DOM ComparePlayer.
#[local] Open Scope string_scope.

(** A container laid out 200 pixels wide, 10 pixels from the left. *)
Definition rect : DOMRect := mkRect (Fin 10) (Fin 200).

(** The player after mounting with two sources and default posters. *)
Definition mounted : Player :=
  mkPlayer (Fin 50) true true false
    (Some (mkVideo "a.mp4" default_posterA (Fin 0) (Fin (1 # 2)) true))
    (Some (mkVideo "b.mp4" default_posterB (Fin 0) (Fin (1 # 2)) true))
    (Some rect)
    [pause A; pause B; play A; play B; play A; play B].

(** The same player after the host has unmuted it; the volumes are
    [1 - 50/100] and [50/100] as the cross-fade computes them. *)
Definition unmuted : Player :=
  mkPlayer (Fin 50) true false false
    (Some (mkVideo "a.mp4" default_posterA (Fin 0) (Fin (50 # 100)) false))
    (Some (mkVideo "b.mp4" default_posterB (Fin 0) (Fin (50 # 100)) false))
    (Some rect)
    [pause A; pause B; play A; play B; play A; play B; play A; play B].

(** The handle of the divider, inside [.compare-divider]. *)
Definition divider_handle : Element :=
  mkEl ["compare-divider-handle"] [["compare-divider"]; ["compare-player"]].

(** The range input. *)
Definition slider_input : Element :=
  mkEl ["compare-slider"] [["compare-player"]].

(** The Foreground video element, away from the divider. *)
Definition video_top : Element :=
  mkEl ["compare-video"; "compare-video-top"] [["compare-player"]].

Definition mouse (target : Element) (x : Q) : MouseEvent.t :=
  MouseEvent.mk target (Fin x).

Definition touch (target : Element) (x : Q) : TouchEvent.t :=
  TouchEvent.mk target [Touch.mk (Fin x)].

Definition reduced (x : num) : num :=
  match x with Fin q => Fin (Qred q) | _ => x end.

(** What the surfaces put out after [evs] on the mounted player: the
    Background volume, the Foreground volume (in lowest terms), and
    whether both are muted. *)
Definition heard (evs : list Event) : option (num * num * bool) :=
  match run mounted evs with
  | Some s =>
      match videos s with
      | Some (a, b) =>
          Some (reduced (volume a), reduced (volume b), muted a && muted b)
      | None => None
      end
  | None => None
  end.

End Sample.

(** ** More of the language: truthiness, [%], [Math.floor], text *)

Module JSLib.
Import JS.

(** [a + b] *)
Definition add (a b : num) : num :=
  match a, b with
  | NaN, _ | _, NaN => NaN
  | PInf, NInf | NInf, PInf => NaN
  | PInf, _ | _, PInf => PInf
  | NInf, _ | _, NInf => NInf
  | Fin x, Fin y => Fin (x + y)
  end.

(** ToBoolean on a number: 0 and NaN are falsy. *)
Definition truthy (a : num) : bool :=
  match a with
  | NaN => false
  | Fin q => negb (Qeq_bool q 0)
  | _ => true
  end.

(** [a === b] on numbers: NaN equals nothing. *)
Definition strict_eq (a b : num) : bool :=
  match a, b with
  | NInf, NInf | PInf, PInf => true
  | Fin x, Fin y => Qeq_bool x y
  | _, _ => false
  end.

(** A number that is not NaN nor an infinity, as a setter typed
    [double] requires. *)
Definition isFinite (a : num) : bool :=
  match a with Fin _ => true | _ => false end.

(** Rounding towards zero. *)
Definition Qtruncate (q : Q) : Z :=
  if Qlt_bool q 0 then Qceiling q else Qfloor q.

(** [a % b]: the remainder has the sign of the dividend; NaN for an
    infinite dividend or a zero divisor. *)
Definition rem (a b : num) : num :=
  match a, b with
  | NaN, _ | _, NaN => NaN
  | (PInf | NInf), _ => NaN
  | Fin x, (PInf | NInf) => Fin x
  | Fin x, Fin y =>
      if Qeq_bool y 0 then NaN
      else Fin (x - y * inject_Z (Qtruncate (x / y)))
  end.

(** The numbers [Math.floor] returns: NaN, an infinity or an integer. *)
Inductive integral : Type :=
| INaN
| INInf
| Int (z : Z)
| IPInf.

Definition Math_floor (a : num) : integral :=
  match a with
  | NaN => INaN
  | NInf => INInf
  | PInf => IPInf
  | Fin q => Int (Qfloor q)
  end.

(** The decimal digits of a natural number. *)
Definition decimal (n : N) : string :=
  NilZero.string_of_uint (N.to_uint n).

Fixpoint strip_zeros (rev_digits : list ascii) : list ascii :=
  match rev_digits with
  | "0"%char :: rest => strip_zeros rest
  | _ => rev_digits
  end.

(** Exponent notation, used from [10^21] on: the significant digits
    with a point after the first, then [e+] and the exponent. *)
Definition exponential (n : N) : string :=
  let ds := list_ascii_of_string (decimal n) in
  let e := decimal (N.of_nat (List.length ds - 1)) in
  match rev (strip_zeros (rev ds)) with
  | [] => "0"
  | [d] => String d ("e+" ++ e)
  | d :: more => String d ("." ++ string_of_list_ascii more ++ "e+" ++ e)
  end.

Definition unsigned_text (n : N) : string :=
  if (n <? 10 ^ 21)%N then decimal n else exponential n.

(** [x.toString()] on an integral number. *)
Definition toString (x : integral) : string :=
  match x with
  | INaN => "NaN"
  | INInf => "-Infinity"
  | IPInf => "Infinity"
  | Int z =>
      if (z <? 0)%Z then "-" ++ unsigned_text (Z.abs_N z)
      else unsigned_text (Z.abs_N z)
  end.

Fixpoint cycle (n : nat) (pad rest : list ascii) : list ascii :=
  match n with
  | O => []
  | S n' =>
      match rest with
      | c :: rest' => c :: cycle n' pad rest'
      | [] =>
          match pad with
          | c :: pad' => c :: cycle n' pad pad'
          | [] => []
          end
      end
  end.

(** [s.padStart(targetLength, padString)] *)
Definition padStart (targetLength : nat) (padString s : string) : string :=
  let missing := (targetLength - String.length s)%nat in
  string_of_list_ascii
    (cycle missing (list_ascii_of_string padString) [])
  ++ s.

End JSLib.

(** ** The card that hosts the player: [MissionLog] *)

Module MissionLog.
Import JS DOM JSLib.

(** What the card does to its audio element. *)
Inductive AudioCommand : Type :=
| audio_play
| audio_pause
| audio_seek (time : num).     (* [audio.currentTime = time] *)

Record Card : Type := mkCard {
  (* props *)
  spotifyUrl : string;
  (* useState *)
  isExpanded : bool;
  isPlaying : bool;
  isVideoAudioOn : bool;
  audioDuration : num;
  audioProgress : num;
  (* useRef: is [audioRef.current] an element, is the click sound
     loaded, and the player [comparePlayerRef.current] belongs to *)
  audioRef : bool;
  clickSoundRef : bool;
  comparePlayerRef : option ComparePlayer.Player;
  (* effects on the outside, oldest first *)
  sent : list AudioCommand;
  clicks : nat;
  opened : list string
}.

Definition setIsExpanded (b : bool) (c : Card) : Card :=
  mkCard (spotifyUrl c) b (isPlaying c) (isVideoAudioOn c)
         (audioDuration c) (audioProgress c) (audioRef c) (clickSoundRef c)
         (comparePlayerRef c) (sent c) (clicks c) (opened c).

Definition setIsPlaying (b : bool) (c : Card) : Card :=
  mkCard (spotifyUrl c) (isExpanded c) b (isVideoAudioOn c)
         (audioDuration c) (audioProgress c) (audioRef c) (clickSoundRef c)
         (comparePlayerRef c) (sent c) (clicks c) (opened c).

Definition setIsVideoAudioOn (b : bool) (c : Card) : Card :=
  mkCard (spotifyUrl c) (isExpanded c) (isPlaying c) b
         (audioDuration c) (audioProgress c) (audioRef c) (clickSoundRef c)
         (comparePlayerRef c) (sent c) (clicks c) (opened c).

Definition setAudioDuration (x : num) (c : Card) : Card :=
  mkCard (spotifyUrl c) (isExpanded c) (isPlaying c) (isVideoAudioOn c)
         x (audioProgress c) (audioRef c) (clickSoundRef c)
         (comparePlayerRef c) (sent c) (clicks c) (opened c).

Definition setAudioProgress (x : num) (c : Card) : Card :=
  mkCard (spotifyUrl c) (isExpanded c) (isPlaying c) (isVideoAudioOn c)
         (audioDuration c) x (audioRef c) (clickSoundRef c)
         (comparePlayerRef c) (sent c) (clicks c) (opened c).

Definition with_player (p : ComparePlayer.Player) (c : Card) : Card :=
  mkCard (spotifyUrl c) (isExpanded c) (isPlaying c) (isVideoAudioOn c)
         (audioDuration c) (audioProgress c) (audioRef c) (clickSoundRef c)
         (Some p) (sent c) (clicks c) (opened c).

Definition send (cmd : AudioCommand) (c : Card) : Card :=
  mkCard (spotifyUrl c) (isExpanded c) (isPlaying c) (isVideoAudioOn c)
         (audioDuration c) (audioProgress c) (audioRef c) (clickSoundRef c)
         (comparePlayerRef c) (sent c ++ [cmd]) (clicks c) (opened c).

(** The click sound is rewound and played. *)
Definition playClickSound (c : Card) : Card :=
  if clickSoundRef c then
    mkCard (spotifyUrl c) (isExpanded c) (isPlaying c) (isVideoAudioOn c)
           (audioDuration c) (audioProgress c) (audioRef c) (clickSoundRef c)
           (comparePlayerRef c) (sent c) (S (clicks c)) (opened c)
  else c.

Definition toggleExpanded (c : Card) : Card :=
  let c := playClickSound c in
  setIsExpanded (negb (isExpanded c)) c.

Definition toggleAudio (c : Card) : Card :=
  let c := playClickSound c in
  if negb (audioRef c) then c
  else
    let c := if isPlaying c then send audio_pause c else send audio_play c in
    setIsPlaying (negb (isPlaying c)) c.

(** The handle is the one of the player's latest render: [playVideos]
    and [toggleMuted] are called on it in turn, and React commits the
    player's two updates together.  [None] when that commit throws. *)
Definition toggleVideoAudio (c : Card) : option Card :=
  let c := playClickSound c in
  match comparePlayerRef c with
  | Some p =>
      let p1 := ComparePlayer.playVideos p in
      let (audioIsNowOn, p2) :=
        ComparePlayer.toggleMuted_of (ComparePlayer.isMuted p) p1 in
      match ComparePlayer.commit p p2 with
      | Some p' => Some (setIsVideoAudioOn audioIsNowOn (with_player p' c))
      | None => None
      end
  | None => Some c
  end.

Definition handleSpotifyClick (c : Card) : Card :=
  let c := playClickSound c in
  mkCard (spotifyUrl c) (isExpanded c) (isPlaying c) (isVideoAudioOn c)
         (audioDuration c) (audioProgress c) (audioRef c) (clickSoundRef c)
         (comparePlayerRef c) (sent c) (clicks c)
         (opened c ++ [spotifyUrl c]).

(** [duration] is [e.target.duration]. *)
Definition handleLoadedMetadata (duration : num) (c : Card) : Card :=
  setAudioDuration duration c.

(** [currentTime] is [e.target.currentTime]. *)
Definition handleTimeUpdate (currentTime : num) (c : Card) : Card :=
  setAudioProgress currentTime c.

Definition handleAudioEnded (c : Card) : Card :=
  setAudioProgress (Fin 0) (setIsPlaying false c).

(** How a handler of the card ends; a throw keeps the updates queued
    before it. *)
Inductive completion : Type :=
| Normal (c : Card)
| Throw (c : Card).

Definition state_of (r : completion) : Card :=
  match r with Normal c | Throw c => c end.

(** Seek.  [rect] is [e.currentTarget.getBoundingClientRect()].  The
    [currentTime] setter of a media element takes a finite number and
    throws a TypeError on any other. *)
Definition handleProgressClick (rect : DOMRect) (clientX : num) (c : Card)
  : completion :=
  if negb (audioRef c) || strict_eq (audioDuration c) (Fin 0) then Normal c
  else
    let clickX := sub clientX (left rect) in
    let percentage := div clickX (width rect) in
    let newTime := mul percentage (audioDuration c) in
    if isFinite newTime
    then Normal (setAudioProgress newTime (send (audio_seek newTime) c))
    else Throw c.

Definition formatTime (seconds : num) : string :=
  if negb (truthy seconds) || isNaN seconds then "0:00"
  else
    let mins := Math_floor (div seconds (Fin 60)) in
    let secs := Math_floor (rem seconds (Fin 60)) in
    toString mins ++ ":" ++ padStart 2 "0" (toString secs).

Definition progressPercent (c : Card) : num :=
  if gt (audioDuration c) (Fin 0)
  then mul (div (audioProgress c) (audioDuration c)) (Fin 100)
  else Fin 0.

(** What happens to a card: its own controls, the events of its audio
    element, and the events of the player it hosts. *)
Inductive Event : Type :=
| HeaderClick
| PlayButton
| SoundButton
| SpotifyButton
| LoadedMetadata (duration : num)
| AudioTimeUpdate (currentTime : num)
| AudioEnded
| ProgressClick (rect : DOMRect) (clientX : num)
| InPlayer (ev : ComparePlayer.Event).

(** An event of the hosted player reaches it when it is mounted. *)
Definition in_player (ev : ComparePlayer.Event) (c : Card) : option Card :=
  match comparePlayerRef c with
  | Some p =>
      match ComparePlayer.step p ev with
      | Some p' => Some (with_player p' c)
      | None => None
      end
  | None => Some c
  end.

Definition step (c : Card) (ev : Event) : option Card :=
  match ev with
  | HeaderClick => Some (toggleExpanded c)
  | PlayButton => Some (toggleAudio c)
  | SoundButton => toggleVideoAudio c
  | SpotifyButton => Some (handleSpotifyClick c)
  | LoadedMetadata duration => Some (handleLoadedMetadata duration c)
  | AudioTimeUpdate currentTime => Some (handleTimeUpdate currentTime c)
  | AudioEnded => Some (handleAudioEnded c)
  | ProgressClick rect clientX =>
      Some (state_of (handleProgressClick rect clientX c))
  | InPlayer ev => in_player ev c
  end.

Fixpoint run (c : Card) (evs : list Event) : option Card :=
  match evs with
  | [] => Some c
  | ev :: evs' =>
      match step c ev with
      | Some c' => run c' evs'
      | None => None
      end
  end.

End MissionLog.

(** ** The animated background: [Starfield] *)

Module Starfield.
Import JS JSLib.

Record Star : Type := mkStar {
  x : num;
  y : num;
  size : num;
  opacity : num;
  twinkleSpeed : num;
  twinklePhase : num;
  driftX : num;
  driftY : num
}.

(** Calls on the 2D context.  [fillStyle alpha] stands for the
    assignment of [rgba(255, 255, 255, alpha)]. *)
Inductive Draw : Type :=
| clearRect (x y w h : num)
| beginPath
| arc (x y radius startAngle endAngle : num)
| fillStyle (alpha : num)
| fill.

(** The closure of the effect: the canvas size, the stars, the frame
    counter, the calls made on the context so far, and how many random
    numbers have been taken. *)
Record Sky : Type := mkSky {
  width : num;
  height : num;
  stars : list Star;
  time : num;
  drawn : list Draw;
  taken : nat
}.

(** How often the body of [for (let i = 0; i < n; i++)] runs: once for
    each natural number below [n]; for [Infinity] the loop does not
    end. *)
Definition iterations (n : num) : option nat :=
  match n with
  | PInf => None
  | Fin q => Some (Z.to_nat (Qceiling q))
  | _ => Some O
  end.

Section Builtins.

(** [Math.PI], [Math.sin], and the value of the [k]-th call of
    [Math.random()]. *)
Variable Math_PI : num.
Variable Math_sin : num -> num.
Variable Math_random : nat -> num.

(** The star pushed by one turn of the loop, the random numbers taken
    in the order the object literal lists its properties. *)
Definition newStar (width height : num) (k : nat) : Star :=
  mkStar
    (mul (Math_random k) width)
    (mul (Math_random (k + 1)) height)
    (add (mul (Math_random (k + 2)) (Fin (3 # 2))) (Fin (1 # 2)))
    (add (mul (Math_random (k + 3)) (Fin (1 # 2))) (Fin (1 # 5)))
    (add (mul (Math_random (k + 4)) (Fin (1 # 50))) (Fin (1 # 200)))
    (mul (mul (Math_random (k + 5)) Math_PI) (Fin 2))
    (mul (sub (Math_random (k + 6)) (Fin (1 # 2))) (Fin (1 # 20)))
    (mul (sub (Math_random (k + 7)) (Fin (1 # 2))) (Fin (1 # 50))).

Fixpoint pushStars (count : nat) (width height : num) (k : nat)
  : list Star :=
  match count with
  | O => []
  | S count' => newStar width height k :: pushStars count' width height (k + 8)
  end.

(** [generateStars]: the old stars are dropped. *)
Definition generateStars (starCount : num) (s : Sky) : option Sky :=
  match iterations starCount with
  | Some count =>
      Some (mkSky (width s) (height s)
                  (pushStars count (width s) (height s) (taken s))
                  (time s) (drawn s) (taken s + 8 * count))
  | None => None
  end.

Definition setCanvasSize (innerWidth innerHeight : num) (s : Sky) : Sky :=
  mkSky innerWidth innerHeight (stars s) (time s) (drawn s) (taken s).

(** The position update of one star in a frame: drift, then wrap. *)
Definition move (width height : num) (star : Star) : Star :=
  let x := add (x star) (driftX star) in
  let y := add (y star) (driftY star) in
  let x := if gt (Fin 0) x then width else x in
  let x := if gt x width then Fin 0 else x in
  let y := if gt (Fin 0) y then height else y in
  let y := if gt y height then Fin 0 else y in
  mkStar x y (size star) (opacity star) (twinkleSpeed star)
         (twinklePhase star) (driftX star) (driftY star).

Definition currentOpacity (time : num) (star : Star) : num :=
  let twinkle :=
    Math_sin (add (mul time (twinkleSpeed star)) (twinklePhase star)) in
  mul (opacity star) (add (Fin (3 # 5)) (mul twinkle (Fin (2 # 5)))).

(** What a frame draws for one (moved) star: the dot, and a glow around
    the larger ones. *)
Definition draw (time : num) (star : Star) : list Draw :=
  let alpha := currentOpacity time star in
  [beginPath;
   arc (x star) (y star) (size star) (Fin 0) (mul Math_PI (Fin 2));
   fillStyle alpha;
   fill]
  ++ (if gt (size star) (Fin 1) then
        [beginPath;
         arc (x star) (y star) (mul (size star) (Fin 2)) (Fin 0)
             (mul Math_PI (Fin 2));
         fillStyle (mul alpha (Fin (1 # 10)));
         fill]
      else []).

(** One frame as the context sees it. *)
Definition frame (s : Sky) : list Draw :=
  clearRect (Fin 0) (Fin 0) (width s) (height s)
  :: flat_map (draw (time s)) (map (move (width s) (height s)) (stars s)).

(** [animate]: every star is moved and drawn, then [time++]. *)
Definition animate (s : Sky) : Sky :=
  mkSky (width s) (height s)
        (map (move (width s) (height s)) (stars s))
        (add (time s) (Fin 1))
        (drawn s ++ frame s)
        (taken s).

(** The effect: size the canvas, generate the stars, draw the first
    frame.  With no canvas the effect returns at once. *)
Definition mount (canvas : bool) (starCount innerWidth innerHeight : num)
  : option Sky :=
  let s := mkSky innerWidth innerHeight [] (Fin 0) [] O in
  if negb canvas then Some s
  else
    match generateStars starCount (setCanvasSize innerWidth innerHeight s) with
    | Some s => Some (animate s)
    | None => None
    end.

Inductive Event : Type :=
| AnimationFrame                           (* the requested frame *)
| WindowResize (innerWidth innerHeight : num).

Definition handleResize (starCount innerWidth innerHeight : num) (s : Sky)
  : option Sky :=
  generateStars starCount (setCanvasSize innerWidth innerHeight s).

Definition step (starCount : num) (s : Sky) (ev : Event) : option Sky :=
  match ev with
  | AnimationFrame => Some (animate s)
  | WindowResize w h => handleResize starCount w h s
  end.

Fixpoint run (starCount : num) (s : Sky) (evs : list Event) : option Sky :=
  match evs with
  | [] => Some s
  | ev :: evs' =>
      match step starCount s ev with
      | Some s' => run starCount s' evs'
      | None => None
      end
  end.

End Builtins.

End Starfield.

(** ** Sample cards *)

Module CardSample.
Import JS DOM.
#[local] Open Scope string_scope.

(** A card in compare mode, expanded, hosting the mounted player. *)
Definition card : MissionLog.Card :=
  MissionLog.mkCard "" true false false (Fin 0) (Fin 0) false true
                    (Some Sample.mounted) [] 0 [].

(** A card with an audio track of 200 seconds, expanded, not playing. *)
Definition audio_card : MissionLog.Card :=
  MissionLog.mkCard "https://open.spotify.com/album/5DUMG8ycCO4D7ObO3MLxdp"
                    true false false (Fin 200) (Fin 0) true true None [] 0 [].

(** The progress bar: 300 pixels wide, 20 pixels from the left. *)
Definition bar : DOMRect := mkRect (Fin 20) (Fin 300).

End CardSample.

Import JS DOM ComparePlayer.

(** ** Predicates on player states and events *)

(** Both surfaces are attached and their [muted] flags agree with
    [isMuted]. *)
Definition surfaces_follow (m : bool) (s : Player) : Prop :=
  exists a b,
    videoARef s = Some a /\ videoBRef s = Some b
    /\ muted a = m /\ muted b = m.

Definition settled (s : Player) : Prop := surfaces_follow (isMuted s) s.

(** The [useState] cells and the container ref of two states agree. *)
Definition same_state (s s' : Player) : Prop :=
  sliderValue s' = sliderValue s /\ isPlaying s' = isPlaying s
  /\ isMuted s' = isMuted s /\ isDragging s' = isDragging s
  /\ containerRef s' = containerRef s.

(** A position the player is meant to hold: NaN (read as 50) or a
    number in [0, 100]. *)
Definition valid_position (p : num) : bool :=
  match p with
  | NaN => true
  | Fin q => Qle_bool 0 q && Qle_bool q 100
  | _ => false
  end.

(** The events that move the divider. *)
Definition moves_divider (ev : Event) : bool :=
  match ev with
  | Change _ | MouseDown _ | MouseMove _ | TouchStart _ | TouchMove _ => true
  | _ => false
  end.

(** The mouse handlers of a drag, in order. *)
Definition mouse_gesture (down : MouseEvent.t) (moves : list MouseEvent.t)
           (s : Player) : Player :=
  handleMouseUp
    (fold_left (fun s e => handleMouseMove e s) moves (handleMouseDown down s)).

(** With the sound on, the volumes are the cross-fade of the position
    the player renders. *)
Definition faded (s : Player) : Prop :=
  isMuted s = false ->
  exists a b p,
    videoARef s = Some a /\ videoBRef s = Some b
    /\ Spec.equals (safeSliderValue s) p
    /\ Spec.equals (volume b) (p / 100)
    /\ Spec.equals (volume a) (1 - p / 100).

(** An event is well formed when a slider change carries a value that
    reads as NaN or as a number in [0, 100]. *)
Definition well_formed (ev : Event) : bool :=
  match ev with
  | Change value => valid_position (Number value)
  | _ => true
  end.

(** [l] ends with [suffix]. *)
Definition ends_with {T : Type} (suffix l : list T) : Prop :=
  exists front, l = front ++ suffix.

(** The events the page delivers to the player: everything but the
    calls on its handle. *)
Definition page_event (ev : Event) : bool :=
  match ev with
  | CallToggleMuted | CallSetMuted _ | CallPlayVideos => false
  | _ => true
  end.

(** The last commands sent to the surfaces match [isPlaying]. *)
Definition in_step (p : Player) : Prop :=
  ends_with (if isPlaying p then [play A; play B] else [pause A; pause B])
            (issued p).

(** What the card's [toggleVideoAudio] does to the player. *)
Definition hostToggle (p : Player) : option Player :=
  commit p (snd (toggleMuted_of (isMuted p) (playVideos p))).

(** The events of a card whose player is driven by the page and by the
    card's own sound button only. *)
Definition card_event (ev : MissionLog.Event) : bool :=
  match ev with
  | MissionLog.InPlayer e => page_event e
  | _ => true
  end.

(** The cards that host a player from its mounting on: the player is
    mounted with the card showing the sound as off, and the card then
    receives its events. *)
Inductive hosted : MissionLog.Card -> Prop :=
| hosted_mount c p srcA srcB posterA posterB rect :
    mount srcA srcB posterA posterB rect = Some p ->
    MissionLog.comparePlayerRef c = Some p ->
    MissionLog.isVideoAudioOn c = false ->
    hosted c
| hosted_step c ev c' :
    hosted c -> card_event ev = true -> MissionLog.step c ev = Some c' ->
    hosted c'.

(** Whether the audio element was last told to play ([Some true]) or
    to pause ([Some false]) by a list of commands, [st] before them. *)
Fixpoint transport (st : option bool) (cmds : list MissionLog.AudioCommand)
  : option bool :=
  match cmds with
  | [] => st
  | MissionLog.audio_play :: rest => transport (Some true) rest
  | MissionLog.audio_pause :: rest => transport (Some false) rest
  | MissionLog.audio_seek _ :: rest => transport st rest
  end.

(** A card that shows its track as playing has an audio element and has
    last told it to play. *)
Definition playing_told (c : MissionLog.Card) : Prop :=
  MissionLog.isPlaying c = true ->
  MissionLog.audioRef c = true
  /\ transport None (MissionLog.sent c) = Some true.

(** A finite number from [lo] to [hi]. *)
Definition within (lo hi : Q) (a : num) : bool :=
  match a with
  | Fin q => Qle_bool lo q && Qle_bool q hi
  | _ => false
  end.

(** What [Math.random()] returns: a number from 0 up to but not
    including 1. *)
Definition unit_random (a : num) : bool :=
  match a with
  | Fin q => Qle_bool 0 q && Qlt_bool q 1
  | _ => false
  end.

(** A star on a canvas of [W] by [H] pixels with the looks and the drift
    [generateStars] gives it. *)
Definition star_ok (W H : Q) (star : Starfield.Star) : Prop :=
  within 0 W (Starfield.x star) = true
  /\ within 0 H (Starfield.y star) = true
  /\ within (1 # 2) 2 (Starfield.size star) = true
  /\ within (1 # 5) (7 # 10) (Starfield.opacity star) = true
  /\ within (1 # 200) (1 # 40) (Starfield.twinkleSpeed star) = true
  /\ JSLib.isFinite (Starfield.twinklePhase star) = true
  /\ within (- (1 # 40)) (1 # 40) (Starfield.driftX star) = true
  /\ within (- (1 # 100)) (1 # 100) (Starfield.driftY star) = true.

(** A call the 2D context accepts and that stays faint: an arc of a
    radius from half a pixel to four pixels, a fill of an alpha from
    0.004 to 0.7. *)
Definition draw_ok (d : Starfield.Draw) : bool :=
  match d with
  | Starfield.arc _ _ radius _ _ => within (1 # 2) 4 radius
  | Starfield.fillStyle alpha => within (1 # 250) (7 # 10) alpha
  | _ => true
  end.

(** A length in pixels: finite and not negative. *)
Definition pixels (a : num) : bool :=
  match a with
  | Fin q => Qle_bool 0 q
  | _ => false
  end.

(** The window of a resize has a size. *)
Definition resize_ok (ev : Starfield.Event) : bool :=
  match ev with
  | Starfield.AnimationFrame => true
  | Starfield.WindowResize w h => pixels w && pixels h
  end.

(** The state the animation keeps: a canvas with a size, [count] stars
    on it, a finite frame counter, and only faint calls made. *)
Definition sky_ok (count : nat) (s : Starfield.Sky) : Prop :=
  exists W H,
    Starfield.width s = Fin W /\ Starfield.height s = Fin H
    /\ 0 <= W /\ 0 <= H
    /\ List.length (Starfield.stars s) = count
    /\ Forall (star_ok W H) (Starfield.stars s)
    /\ JSLib.isFinite (Starfield.time s) = true
    /\ forallb draw_ok (Starfield.drawn s) = true.

(** The events of the card that are clicks on one of its controls, and
    those on the Spotify button. *)
Definition on_control (ev : MissionLog.Event) : bool :=
  match ev with
  | MissionLog.HeaderClick | MissionLog.PlayButton
  | MissionLog.SoundButton | MissionLog.SpotifyButton => true
  | _ => false
  end.

Definition on_spotify (ev : MissionLog.Event) : bool :=
  match ev with
  | MissionLog.SpotifyButton => true
  | _ => false
  end.

(** The two decimal digits of a number from 0 to 99. *)
Definition two_digits (z : Z) : string :=
  String (ascii_of_nat (48 + Z.to_nat (z / 10)))
         (String (ascii_of_nat (48 + Z.to_nat (z mod 10))) EmptyString).

(** ** Arithmetic on the boolean comparisons *)

Lemma Qle_bool_spec (a b : Q) : reflect (a <= b) (Qle_bool a b).
Proof.
  destruct (Qle_bool a b) eqn:E; constructor.
  - now apply Qle_bool_iff.
  - intro H. apply Qle_bool_iff in H. congruence.
Qed.

Lemma Qeq_bool_spec (a b : Q) : reflect (a == b) (Qeq_bool a b).
Proof.
  destruct (Qeq_bool a b) eqn:E; constructor.
  - now apply Qeq_bool_iff.
  - intro H. apply Qeq_bool_iff in H. congruence.
Qed.

(** Replace every boolean comparison of rationals in the goal by the
    proposition it decides. *)
Ltac qcases :=
  unfold Qlt_bool in *;
  repeat (match goal with
          | |- context [Qle_bool ?a ?b] => destruct (Qle_bool_spec a b)
          | |- context [Qeq_bool ?a ?b] => destruct (Qeq_bool_spec a b)
          end; cbn [negb andb orb]).

Lemma Object_is_refl (a : num) : Object_is a a = true.
Proof. destruct a; cbn; auto. apply Qeq_bool_iff. reflexivity. Qed.

(** ** Facts about the commit *)

Lemma commit_same (s : Player) : commit s s = Some s.
Proof.
  unfold commit. rewrite !Bool.eqb_reflx, Object_is_refl. reflexivity.
Qed.

Lemma mount_sample :
  mount "a.mp4" "b.mp4" None None Sample.rect = Some Sample.mounted.
Proof. reflexivity. Qed.

Lemma mounted_reachable : reachable Sample.mounted.
Proof. eapply reach_mount, mount_sample. Qed.

(** ** The pointer-to-percentage computation *)



(** The degenerate layout: a container of width 0 with the pointer on
    its left edge yields [0/0], and the clamp keeps the NaN. *)
Lemma calculatePosition_zero_width (s : Player) (x : Q) :
  containerRef s = Some (mkRect (Fin x) (Fin 0)) ->
  calculatePosition s (Fin x) = NaN.
Proof.
  intros H. unfold calculatePosition. rewrite H. cbn [left width sub div].
  destruct (Qeq_bool_spec (x - x) 0) as [_|N]; [reflexivity|].
  exfalso. apply N. ring.
Qed.

(** ** Synchronisation of the two surfaces *)

Lemma syncVideos_background (videoA videoB : HTMLVideoElement) :
  fst (syncVideos videoA videoB) = videoA.
Proof. unfold syncVideos. now destruct (gt _ _). Qed.

Lemma syncVideos_foreground_frame (videoA videoB : HTMLVideoElement) :
  let videoB' := snd (syncVideos videoA videoB) in
  src videoB' = src videoB /\ poster videoB' = poster videoB
  /\ volume videoB' = volume videoB /\ muted videoB' = muted videoB.
Proof. unfold syncVideos. now destruct (gt _ _). Qed.

Lemma syncVideos_cases (videoA videoB : HTMLVideoElement) (tA tB : Q) :
  currentTime videoA = Fin tA ->
  currentTime videoB = Fin tB ->
  (1 # 10 < Qabs (tA - tB) ->
   syncVideos videoA videoB = (videoA, set_currentTime (Fin tA) videoB))
  /\ (Qabs (tA - tB) <= 1 # 10 ->
      syncVideos videoA videoB = (videoA, videoB)).
Proof.
  intros HA HB. unfold syncVideos. rewrite HA, HB.
  cbn [sub Math_abs gt]. unfold Qlt_bool.
  destruct (Qle_bool_spec (Qabs (tA - tB)) (1 # 10)) as [L|L]; cbn [negb].
  - split; intros; [exfalso; lra | reflexivity].
  - split; intros; [reflexivity | exfalso; auto].
Qed.



(** The two cases the specification lists: Foreground 0.2 ahead is
    pulled back, Foreground 0.05 ahead is left alone. *)
Example syncVideos_ahead_200ms (a b : HTMLVideoElement) (T : Q) :
  currentTime a = Fin T -> currentTime b = Fin (T + (2 # 10)) ->
  syncVideos a b = (a, set_currentTime (Fin T) b).
Proof.
  intros HA HB. apply (syncVideos_cases a b _ _ HA HB).
  apply Qabs_case; intros; lra.
Qed.

Example syncVideos_ahead_50ms (a b : HTMLVideoElement) (T : Q) :
  currentTime a = Fin T -> currentTime b = Fin (T + (5 # 100)) ->
  syncVideos a b = (a, b).
Proof.
  intros HA HB. apply (syncVideos_cases a b _ _ HA HB).
  apply Qabs_case; intros; lra.
Qed.

(** ** Dragging *)

(** C7.  While [isDragging] is false a mouse-move or touch-move changes
    nothing: both handlers return at once, and the event as a whole
    (handler and commit) leaves the player as it was. *)
Theorem continueDrag_ignored (s : Player) :
  isDragging s = false ->
  (forall e, handleMouseMove e s = s)
  /\ (forall e, handleTouchMove e s = Normal s)
  /\ (forall e, step s (MouseMove e) = Some s)
  /\ (forall e, step s (TouchMove e) = Some s).
Proof.
  intros H. unfold step, handle, handleMouseMove, handleTouchMove.
  rewrite H. cbn [negb state_of]. rewrite commit_same. auto.
Qed.

Lemma continueDrag_ignored_witness :
  (forall e, handleMouseMove e Sample.mounted = Sample.mounted)
  /\ (forall e, handleTouchMove e Sample.mounted = Normal Sample.mounted)
  /\ (forall e, step Sample.mounted (MouseMove e) = Some Sample.mounted)
  /\ (forall e, step Sample.mounted (TouchMove e) = Some Sample.mounted).
Proof. apply (continueDrag_ignored Sample.mounted). reflexivity. Defined.

(** ** Invariants of the mounted player *)

Lemma mount_total srcA srcB posterA posterB rect :
  mount srcA srcB posterA posterB rect =
  Some (mkPlayer (Fin 50) true true false
          (Some (mkVideo srcA (or_default posterA default_posterA)
                         (Fin 0) (Fin (1 # 2)) true))
          (Some (mkVideo srcB (or_default posterB default_posterB)
                         (Fin 0) (Fin (1 # 2)) true))
          (Some rect)
          [pause A; pause B; play A; play B; play A; play B]).
Proof. reflexivity. Qed.

Lemma set_volume_frame x v v' :
  set_volume x v = Some v' ->
  volume v' = x /\ muted v' = muted v /\ currentTime v' = currentTime v
  /\ src v' = src v /\ poster v' = poster v.
Proof.
  unfold set_volume. destruct x; try discriminate.
  destruct (_ && _); [|discriminate]. intros [= <-]. cbn. auto.
Qed.

Lemma handle_surfaces (ev : Event) (s : Player) (m : bool) :
  surfaces_follow m s -> surfaces_follow m (handle ev s).
Proof.
  intros (a & b & HA & HB & MA & MB).
  assert (V : videos s = Some (a, b)) by (unfold videos; now rewrite HA, HB).
  destruct ev; cbn [handle];
    unfold handleSliderChange, togglePlayback, handleMouseDown,
      handleMouseMove, handleMouseUp, handleTouchStart, handleTouchMove,
      handleTouchEnd, toggleMuted, toggleMuted_of, setMuted, playVideos,
      timeupdate, autoPlay;
    rewrite ?V;
    repeat match goal with
      | |- context [if ?c then _ else _] => destruct c
      | |- context [match TouchEvent.touches ?e with _ => _ end] =>
          destruct (TouchEvent.touches e)
      | |- context [syncVideos ?x ?y] =>
          let F := fresh in
          pose proof (syncVideos_foreground_frame x y) as F;
          pose proof (syncVideos_background x y);
          destruct (syncVideos x y); cbn [fst snd] in *;
          destruct F as (_ & _ & _ & F); subst
      end;
    cbn; try (exists a, b; now auto).
  all: cbn in *; eexists _, _; repeat split; cbn; congruence.
Qed.

Lemma same_state_trans s1 s2 s3 :
  same_state s1 s2 -> same_state s2 s3 -> same_state s1 s3.
Proof. unfold same_state. intuition congruence. Qed.

Lemma playPauseEffect_frame (s : Player) :
  same_state s (playPauseEffect s)
  /\ videoARef (playPauseEffect s) = videoARef s
  /\ videoBRef (playPauseEffect s) = videoBRef s.
Proof.
  unfold playPauseEffect. destruct (videos s); [destruct (isPlaying s)|];
    repeat split.
Qed.

Lemma mutedEffect_frame (s : Player) (m : bool) :
  surfaces_follow m s ->
  same_state s (mutedEffect s) /\ surfaces_follow (isMuted s) (mutedEffect s).
Proof.
  intros (a & b & HA & HB & _). unfold mutedEffect, videos.
  rewrite HA, HB. split; [repeat split|].
  eexists _, _. cbn. auto.
Qed.

Lemma crossFadeEffect_frame (s s' : Player) (m : bool) :
  surfaces_follow m s -> crossFadeEffect s = Some s' ->
  same_state s s' /\ surfaces_follow m s'.
Proof.
  intros (a & b & HA & HB & MA & MB). unfold crossFadeEffect, videos.
  rewrite HA, HB. destruct (negb (isMuted s)).
  - destruct (set_volume _ a) as [a'|] eqn:EA; [|discriminate].
    destruct (set_volume _ b) as [b'|] eqn:EB; [|discriminate].
    apply set_volume_frame in EA, EB. intros [= <-].
    split; [repeat split|]. exists a', b'. cbn. intuition congruence.
  - intros [= <-]. split; [repeat split|]. exists a, b. auto.
Qed.

Lemma commit_settles (prev next s' : Player) :
  surfaces_follow (isMuted prev) next ->
  commit prev next = Some s' ->
  settled s' /\ same_state next s'.
Proof.
  intros F. unfold commit, settled.
  set (s1 := if Bool.eqb (isPlaying prev) (isPlaying next) then next
             else playPauseEffect next).
  assert (F1 : surfaces_follow (isMuted prev) s1 /\ same_state next s1).
  { subst s1. destruct (Bool.eqb _ _); [split; [auto|repeat split]|].
    destruct (playPauseEffect_frame next) as (S & EA & EB).
    split; [|exact S]. destruct F as (a & b & HA & HB & M).
    exists a, b. rewrite EA, EB. auto. }
  destruct F1 as (F1 & S1). clearbody s1.
  set (s2 := if Bool.eqb (isMuted prev) (isMuted next) then s1
             else mutedEffect s1).
  assert (F2 : surfaces_follow (isMuted next) s2 /\ same_state next s2).
  { subst s2. destruct (Bool.eqb (isMuted prev) (isMuted next)) eqn:EM.
    - apply Bool.eqb_prop in EM. rewrite <- EM. auto.
    - destruct (mutedEffect_frame s1 _ F1) as (S & F2).
      split; [|eapply same_state_trans; eassumption].
      destruct S1 as (_ & _ & <- & _). exact F2. }
  destruct F2 as (F2 & S2). clearbody s2.
  destruct (_ && _).
  - intros [= <-]. split; [|exact S2].
    destruct S2 as (_ & _ & -> & _). exact F2.
  - intros H. destruct (crossFadeEffect_frame _ _ _ F2 H) as (S3 & F3).
    split; [|eapply same_state_trans; eassumption].
    destruct S3 as (_ & _ & -> & _). destruct S2 as (_ & _ & -> & _).
    exact F3.
Qed.

Lemma step_settled (s s' : Player) (ev : Event) :
  settled s -> step s ev = Some s' -> settled s'.
Proof.
  intros I H. apply (commit_settles s (handle ev s)); [|exact H].
  now apply handle_surfaces.
Qed.

Lemma reachable_settled (s : Player) : reachable s -> settled s.
Proof.
  induction 1 as [srcA srcB posterA posterB rect s H | s ev s' _ IH H].
  - rewrite mount_total in H. injection H as <-.
    eexists _, _. cbn. auto.
  - eapply step_settled; eassumption.
Qed.

Lemma settled_videos (s : Player) :
  settled s ->
  exists a b, videos s = Some (a, b)
              /\ muted a = isMuted s /\ muted b = isMuted s.
Proof.
  intros (a & b & HA & HB & M). exists a, b. unfold videos.
  now rewrite HA, HB.
Qed.

(** ** The imperative handle *)

Lemma toggleMuted_state (s : Player) :
  isMuted (snd (toggleMuted s)) = negb (isMuted s)
  /\ fst (toggleMuted s) = isMuted s.
Proof.
  unfold toggleMuted, toggleMuted_of. cbn [fst snd].
  rewrite Bool.negb_involutive. split; reflexivity.
Qed.

Lemma step_state (s s' : Player) (ev : Event) :
  settled s -> step s ev = Some s' ->
  settled s' /\ same_state (handle ev s) s'.
Proof.
  intros I H. apply (commit_settles s); [|exact H].
  now apply handle_surfaces.
Qed.



(** Unmuting the mounted sample: the call returns [true], and the
    committed state is the sample with the sound on. *)
Example unmute_sample :
  fst (toggleMuted Sample.mounted) = true
  /\ step Sample.mounted CallToggleMuted = Some Sample.unmuted.
Proof. split; reflexivity. Qed.


(** Both calls of C10 go through, from the mounted sample, and lead
    back to a muted player. *)
Example toggleMuted_twice_sample :
  option_map isMuted
    (run Sample.mounted [CallToggleMuted; CallToggleMuted]) = Some true
  /\ fst (toggleMuted Sample.mounted) = true
  /\ fst (toggleMuted Sample.unmuted) = false.
Proof. vm_compute. repeat split. Qed.

(** Why the calls above are taken one render apart.  A handle is the
    closure of one render; called twice before React renders again, it
    computes the same flip from the same captured [isMuted], so the two
    calls return the same value and queue the same state. *)
Remark toggleMuted_same_render (m : bool) (s : Player) :
  let (r1, s1) := toggleMuted_of m s in
  let (r2, s2) := toggleMuted_of m s1 in
  r2 = r1 /\ isMuted s2 = isMuted s1 /\ isMuted s2 = negb m.
Proof. unfold toggleMuted_of. cbn. auto. Qed.


(** ** The divider position set through the slider *)

(** C1 as the specification words it fails on the source: the slider
    handler stores [Number(value)] as it is.  For the value
    ["150"] the state holds 150, not [clamp(0, 100, 150) = 100], and the
    position used for rendering is 150 as well; for [undefined] the
    state holds NaN, not 50. *)
Lemma handleSliderChange_stores_raw :
  let s := handleSliderChange (Str "150") Sample.mounted in
  let u := handleSliderChange Undefined Sample.mounted in
  sliderValue s = Fin 150
  /\ Spec.setDividerPosition (Str "150") = Fin 100
  /\ Object_is (sliderValue s) (Spec.setDividerPosition (Str "150")) = false
  /\ gt (safeSliderValue s) (Fin 100) = true
  /\ sliderValue u = NaN
  /\ Spec.setDividerPosition Undefined = Fin 50
  /\ Object_is (sliderValue u) (Spec.setDividerPosition Undefined) = false.
Proof. cbv zeta. repeat split; reflexivity. Qed.

(** C1, as the source has it.  [handleSliderChange] stores
    [Number(value)] unchanged and touches no other state.  The position
    derived from it for rendering, [safeSliderValue], is the stored
    number, or 50 when that is NaN, so it is never NaN.  When
    [Number(value)] is NaN or lies in [0, 100], as the value of the range
    input ([min=0], [max=100]) does, the derived position is the
    specification's [clamp(0, 100, numeric(value) or 50)] and lies in
    [0, 100]. *)
Theorem handleSliderChange_spec (value : JS.value) (s : Player) :
  let s' := handleSliderChange value s in
  s' = setSliderValue (Number value) s
  /\ sliderValue s' = Number value
  /\ safeSliderValue s'
     = (if isNaN (Number value) then Fin 50 else Number value)
  /\ isNaN (safeSliderValue s') = false
  /\ (valid_position (Number value) = true ->
      Object_is (safeSliderValue s') (Spec.setDividerPosition value) = true
      /\ exists p, safeSliderValue s' = Fin p /\ 0 <= p <= 100).
Proof.
  unfold handleSliderChange, safeSliderValue, Spec.setDividerPosition.
  cbn [sliderValue setSliderValue]. rewrite Bool.orb_false_r.
  destruct (Number value) as [| |q|]; cbn [isNaN valid_position];
    repeat split; try discriminate.
  - exists 50. split; [reflexivity|lra].
  - revert H. unfold Spec.clamp, Object_is. qcases; try discriminate.
    all: intros _; try lra.
  - revert H. qcases; try discriminate. intros _.
    exists q. split; [reflexivity|lra].
Qed.

Lemma handleSliderChange_witness :
  Object_is (safeSliderValue (handleSliderChange (Str "37") Sample.mounted))
            (Spec.setDividerPosition (Str "37")) = true
  /\ exists p,
       safeSliderValue (handleSliderChange (Str "37") Sample.mounted) = Fin p
       /\ 0 <= p <= 100.
Proof.
  apply (handleSliderChange_spec (Str "37") Sample.mounted).
  reflexivity.
Defined.

(** ** The cross-fade *)

Lemma set_volume_in_range (q : Q) (v : HTMLVideoElement) :
  0 <= q <= 1 ->
  set_volume (Fin q) v
  = Some (mkVideo (src v) (poster v) (currentTime v) (Fin q) (muted v)).
Proof.
  intros R. unfold set_volume.
  destruct (Qle_bool_spec 0 q); [|exfalso; lra].
  destruct (Qle_bool_spec q 1); [|exfalso; lra].
  reflexivity.
Qed.

Lemma percent_in_range (p : Q) :
  0 <= p <= 100 -> 0 <= p / 100 <= 1 /\ 0 <= 1 - p / 100 <= 1.
Proof. intros R. unfold Qdiv. change (/ 100) with (1 # 100). lra. Qed.



(** Outside [0, 100] a volume setter throws and the effect does not
    complete. *)
Lemma crossFade_out_of_range (s : Player) (videoA videoB : HTMLVideoElement)
      (p : Q) :
  videoARef s = Some videoA -> videoBRef s = Some videoB ->
  isMuted s = false -> sliderValue s = Fin p ->
  p < 0 \/ 100 < p ->
  crossFadeEffect s = None.
Proof.
  intros HA HB M E R. unfold crossFadeEffect, videos.
  rewrite HA, HB, M, E. cbn [negb isNaN div sub].
  change (Qeq_bool 100 0) with false. cbv iota.
  assert (R1 : p / 100 < 0 \/ 1 < p / 100).
  { unfold Qdiv. change (/ 100) with (1 # 100). lra. }
  unfold set_volume.
  destruct (Qle_bool_spec 0 (1 - p / 100));
    destruct (Qle_bool_spec (1 - p / 100) 1);
    destruct (Qle_bool_spec 0 (p / 100));
    destruct (Qle_bool_spec (p / 100) 1); cbn [andb]; try reflexivity;
    exfalso; lra.
Qed.

(** ** Muted players *)

Lemma moves_divider_handle (ev : Event) (s : Player) :
  moves_divider ev = true ->
  isPlaying (handle ev s) = isPlaying s
  /\ isMuted (handle ev s) = isMuted s
  /\ videoARef (handle ev s) = videoARef s
  /\ videoBRef (handle ev s) = videoBRef s
  /\ issued (handle ev s) = issued s.
Proof.
  destruct ev; try discriminate; intros _; cbn [handle];
    unfold handleSliderChange, handleMouseDown, handleMouseMove,
      handleTouchStart, handleTouchMove;
    repeat match goal with
      | |- context [if ?c then _ else _] => destruct c
      | |- context [match TouchEvent.touches ?e with _ => _ end] =>
          destruct (TouchEvent.touches e)
      end;
    repeat split.
Qed.

(** C5.  In every state of the mounted player with [isMuted] true, an
    event that moves the divider (slider change, mouse-down or -move,
    touch-start or -move) completes and leaves both video elements as
    they were, their [volume] fields included, and issues no playback
    command; before and after it neither surface is audible, both being
    muted. *)
Theorem muted_divider_frame (s : Player) (ev : Event) :
  reachable s ->
  isMuted s = true ->
  moves_divider ev = true ->
  exists s',
    step s ev = Some s'
    /\ s' = handle ev s
    /\ videoARef s' = videoARef s
    /\ videoBRef s' = videoBRef s
    /\ issued s' = issued s
    /\ isMuted s' = true
    /\ (forall v, videoARef s = Some v \/ videoBRef s = Some v ->
                  muted v = true /\ audible v = false)
    /\ (forall v, videoARef s' = Some v \/ videoBRef s' = Some v ->
                  muted v = true /\ audible v = false).
Proof.
  intros R M D.
  destruct (moves_divider_handle ev s D) as (EP & EM & EA & EB & EI).
  assert (Q : forall v, videoARef s = Some v \/ videoBRef s = Some v ->
                        muted v = true /\ audible v = false).
  { destruct (reachable_settled s R) as (a & b & HA & HB & MA & MB).
    rewrite M in MA, MB. unfold audible.
    intros v [H|H]; rewrite H in *;
      [injection HA as <- | injection HB as <-];
      [rewrite MA | rewrite MB]; auto. }
  exists (handle ev s).
  assert (S : step s ev = Some (handle ev s)).
  { unfold step, commit. rewrite EP, EM, !Bool.eqb_reflx.
    rewrite Bool.andb_true_r.
    destruct (Object_is _ _); [reflexivity|].
    unfold crossFadeEffect. rewrite EM, M. cbn [negb].
    now destruct (videos _) as [[? ?]|]. }
  rewrite EA, EB, EM. repeat split; auto; apply Q; auto.
Qed.

Lemma muted_divider_frame_witness :
  exists s',
    step Sample.mounted (Change (Str "80")) = Some s'
    /\ s' = handle (Change (Str "80")) Sample.mounted
    /\ videoARef s' = videoARef Sample.mounted
    /\ videoBRef s' = videoBRef Sample.mounted
    /\ issued s' = issued Sample.mounted
    /\ isMuted s' = true
    /\ (forall v, videoARef Sample.mounted = Some v
                  \/ videoBRef Sample.mounted = Some v ->
                  muted v = true /\ audible v = false)
    /\ (forall v, videoARef s' = Some v \/ videoBRef s' = Some v ->
                  muted v = true /\ audible v = false).
Proof.
  apply (muted_divider_frame Sample.mounted (Change (Str "80"))).
  - exact (reach_mount "a.mp4" "b.mp4" None None Sample.rect _ eq_refl).
  - reflexivity.
  - reflexivity.
Defined.

(** The clip follows the divider while muted: at 80 the Foreground is
    clipped by 20 percent. *)
Example clip_at_80 :
  option_map (fun s => Sample.reduced (clipPercentage s))
             (step Sample.mounted (Change (Str "80"))) = Some (Fin 20).
Proof. vm_compute. reflexivity. Qed.

(** The cross-fade itself writes nothing while muted. *)
Lemma crossFade_muted (s : Player) :
  isMuted s = true -> crossFadeEffect s = Some s.
Proof.
  intros M. unfold crossFadeEffect. rewrite M.
  now destruct (videos s) as [[? ?]|].
Qed.

(** ** Clicks and drags *)

(** A click outside the slider, with no drag in progress, flips
    [isPlaying] once; the commit sends the matching command to both
    surfaces. *)
Lemma click_toggles (s : Player) (e : MouseEvent.t) :
  isDragging s = false ->
  contains "compare-slider" (classList (MouseEvent.target e)) = false ->
  togglePlayback e s = setIsPlaying (negb (isPlaying s)) s
  /\ step s (Click e)
     = Some (playPauseEffect (setIsPlaying (negb (isPlaying s)) s)).
Proof.
  intros D C. unfold step, handle, togglePlayback. rewrite D, C.
  cbn [orb]. split; [reflexivity|]. unfold commit.
  cbn [isPlaying isMuted sliderValue setIsPlaying].
  rewrite Bool.eqb_reflx, Object_is_refl. cbn [andb].
  now destruct (isPlaying s).
Qed.

(** A click on the slider, or while a drag is in progress, changes
    nothing. *)
Lemma click_suppressed (s : Player) (e : MouseEvent.t) :
  isDragging s = true
  \/ contains "compare-slider" (classList (MouseEvent.target e)) = true ->
  togglePlayback e s = s.
Proof.
  intros [H|H]; unfold togglePlayback; rewrite H;
    rewrite ?Bool.orb_true_r; reflexivity.
Qed.

Lemma mouse_moves_frame (moves : list MouseEvent.t) (s : Player) :
  let s' := fold_left (fun s e => handleMouseMove e s) moves s in
  isPlaying s' = isPlaying s /\ isDragging s' = isDragging s.
Proof.
  revert s. induction moves as [|e moves IH]; intros s; cbn.
  - auto.
  - destruct (IH (handleMouseMove e s)) as (E1 & E2).
    rewrite E1, E2. unfold handleMouseMove.
    destruct (negb (isDragging s)); auto.
Qed.

(** By the time the click that ends a drag reaches [togglePlayback],
    [handleMouseUp] has already cleared [isDragging]: the click toggles
    playback whatever the drag was. *)
Lemma click_after_mouse_gesture (s : Player) (down click : MouseEvent.t)
      (moves : list MouseEvent.t) :
  contains "compare-slider" (classList (MouseEvent.target click)) = false ->
  let s' := mouse_gesture down moves s in
  isDragging s' = false
  /\ isPlaying (togglePlayback click s') = negb (isPlaying s).
Proof.
  intros C. unfold mouse_gesture, togglePlayback, handleMouseUp.
  cbn [isDragging setIsDragging orb isPlaying]. rewrite C.
  split; [reflexivity|]. cbn [setIsPlaying isPlaying].
  destruct (mouse_moves_frame moves (handleMouseDown down s)) as (-> & _).
  unfold handleMouseDown. now destruct (on_divider_area _).
Qed.

(** C4, at the failing input.  On the mounted sample (playing, not
    dragging): mouse-down on the divider handle and two mouse-moves are
    a drag in progress ([isDragging] is true after the first move), the
    mouse-up ends it ([isDragging] false, [isPlaying] still true); the
    click that follows on the divider handle flips [isPlaying] from true
    to false and pauses both surfaces, exactly as the same click does
    with no drag before it. *)
Theorem click_after_drag_toggles :
  let handle_at x := Sample.mouse Sample.divider_handle x in
  let press := [MouseDown (handle_at 60); MouseMove (handle_at 90)] in
  let drag := press ++ [MouseMove (handle_at 150); MouseUp] in
  let click := Click (handle_at 150) in
  isPlaying Sample.mounted = true
  /\ option_map isDragging (run Sample.mounted press) = Some true
  /\ option_map isDragging (run Sample.mounted drag) = Some false
  /\ option_map isPlaying (run Sample.mounted drag) = Some true
  /\ option_map isPlaying (run Sample.mounted (drag ++ [click])) = Some false
  /\ option_map issued (run Sample.mounted (drag ++ [click]))
     = Some (issued Sample.mounted ++ [pause A; pause B])
  /\ option_map isPlaying (run Sample.mounted [click]) = Some false.
Proof. vm_compute. repeat split. Qed.

(** ** Where a drag may start *)

Lemma on_divider_area_iff (target : Element) :
  on_divider_area target = true <->
  (exists d, closest "compare-divider" target = Some d)
  \/ contains "compare-slider" (classList target) = true.
Proof.
  unfold on_divider_area.
  destruct (closest "compare-divider" target) as [d|].
  - split; auto. intros _. left. now exists d.
  - split; auto. intros [[d H]|H]; [discriminate|exact H].
Qed.

(** The mouse path: a drag begins, and the divider goes to the pointer,
    exactly when the target is inside the divider or is the slider. *)
Lemma handleMouseDown_spec (e : MouseEvent.t) (s : Player) :
  (on_divider_area (MouseEvent.target e) = true ->
   handleMouseDown e s
   = setSliderValue (calculatePosition s (MouseEvent.clientX e))
                    (setIsDragging true s))
  /\ (on_divider_area (MouseEvent.target e) = false ->
      handleMouseDown e s = s).
Proof.
  unfold handleMouseDown. destruct (on_divider_area _); split;
    try discriminate; reflexivity.
Qed.

(** On the samples: a mouse-down on the divider handle or on the range
    input begins a drag and moves the divider from 50 to 25, one on the
    video does not; a click on the range input does not toggle
    playback. *)
Example mouseDown_samples :
  let after target :=
    handleMouseDown (Sample.mouse target 60) Sample.mounted in
  isDragging (after Sample.divider_handle) = true
  /\ Sample.reduced (sliderValue (after Sample.divider_handle)) = Fin 25
  /\ isDragging (after Sample.slider_input) = true
  /\ after Sample.video_top = Sample.mounted
  /\ togglePlayback (Sample.mouse Sample.slider_input 60) Sample.mounted
     = Sample.mounted.
Proof. vm_compute. repeat split. Qed.

(** The touch path: a drag begins wherever the touch lands. *)
Lemma handleTouchStart_spec (e : TouchEvent.t) (s : Player) :
  isDragging (state_of (handleTouchStart e s)) = true
  /\ (forall touch rest,
         TouchEvent.touches e = touch :: rest ->
         handleTouchStart e s
         = Normal (setSliderValue (calculatePosition s (Touch.clientX touch))
                                  (setIsDragging true s))).
Proof.
  unfold handleTouchStart. split.
  - now destruct (TouchEvent.touches e).
  - intros touch rest ->. reflexivity.
Qed.

(** C9, at the failing input.  A touch-start on the Foreground video
    element, which is neither inside the divider nor the slider, begins a
    drag on the mounted sample: [isDragging] becomes true and the divider
    moves from 50 to the touch position, 25.  A mouse-down on the same
    element at the same place changes nothing. *)
Theorem touchStart_elsewhere_begins_drag :
  let e := Sample.touch Sample.video_top 60 in
  let after := step Sample.mounted (TouchStart e) in
  on_divider_area (TouchEvent.target e) = false
  /\ isDragging Sample.mounted = false
  /\ sliderValue Sample.mounted = Fin 50
  /\ option_map isDragging after = Some true
  /\ option_map (fun s => Sample.reduced (sliderValue s)) after
     = Some (Fin 25)
  /\ step Sample.mounted (MouseDown (Sample.mouse Sample.video_top 60))
     = Some Sample.mounted.
Proof. vm_compute. repeat split. Qed.

(** ** The volume invariant *)

Lemma syncVideos_volumes (x y : HTMLVideoElement) :
  volume (fst (syncVideos x y)) = volume x
  /\ volume (snd (syncVideos x y)) = volume y.
Proof. unfold syncVideos. now destruct (gt _ _). Qed.

Lemma handle_volumes (ev : Event) (s : Player) (a b : HTMLVideoElement) :
  videoARef s = Some a -> videoBRef s = Some b ->
  exists a' b',
    videoARef (handle ev s) = Some a' /\ videoBRef (handle ev s) = Some b'
    /\ volume a' = volume a /\ volume b' = volume b.
Proof.
  intros HA HB.
  assert (V : videos s = Some (a, b)) by (unfold videos; now rewrite HA, HB).
  destruct ev; cbn [handle];
    unfold handleSliderChange, togglePlayback, handleMouseDown,
      handleMouseMove, handleMouseUp, handleTouchStart, handleTouchMove,
      handleTouchEnd, toggleMuted, toggleMuted_of, setMuted, playVideos,
      timeupdate, autoPlay;
    rewrite ?V;
    repeat match goal with
      | |- context [if ?c then _ else _] => destruct c
      | |- context [match TouchEvent.touches ?e with _ => _ end] =>
          destruct (TouchEvent.touches e)
      end;
    cbn; try (exists a, b; now auto).
  pose proof (syncVideos_volumes (set_currentTime timeA a)
                                 (set_currentTime timeB b)) as (E1 & E2).
  destruct (syncVideos _ _) as [a' b']. cbn in *. exists a', b'. auto.
Qed.

Lemma safeSliderValue_Object_is (s s' : Player) (p : Q) :
  Object_is (sliderValue s) (sliderValue s') = true ->
  Spec.equals (safeSliderValue s) p -> Spec.equals (safeSliderValue s') p.
Proof.
  unfold safeSliderValue, Spec.equals.
  destruct (sliderValue s), (sliderValue s'); cbn; try discriminate; auto.
  intros E H. apply Qeq_bool_iff in E. now rewrite <- E.
Qed.

Lemma crossFadeEffect_unmuted (s s' : Player) (a b : HTMLVideoElement) :
  videoARef s = Some a -> videoBRef s = Some b -> isMuted s = false ->
  crossFadeEffect s = Some s' ->
  exists a' b' p,
    s' = with_videos a' b' s
    /\ safeSliderValue s = Fin p
    /\ volume b' = Fin (p / 100) /\ volume a' = Fin (1 - p / 100).
Proof.
  intros HA HB M. unfold crossFadeEffect, videos, safeSliderValue.
  rewrite HA, HB, M, Bool.orb_false_r. cbn [negb].
  destruct (if isNaN (sliderValue s) then Fin 50 else sliderValue s)
    as [| |p|]; cbn [div sub set_volume]; try discriminate.
  change (Qeq_bool 100 0) with false. cbv iota. cbn [set_volume].
  destruct (_ && _); [|discriminate].
  destruct (_ && _); [|discriminate].
  intros [= <-]. eexists _, _, p. repeat split.
Qed.

Lemma crossFadeEffect_isMuted (s s' : Player) :
  crossFadeEffect s = Some s' -> isMuted s' = isMuted s.
Proof.
  unfold crossFadeEffect. destruct (videos s) as [[a b]|]; [|congruence].
  destruct (negb (isMuted s)); [|congruence].
  destruct (set_volume _ a); [|discriminate].
  destruct (set_volume _ b); [|discriminate].
  now intros [= <-].
Qed.

Lemma crossFadeEffect_faded (s s' : Player) (a b : HTMLVideoElement) :
  videoARef s = Some a -> videoBRef s = Some b ->
  crossFadeEffect s = Some s' -> faded s'.
Proof.
  intros HA HB H M.
  rewrite (crossFadeEffect_isMuted _ _ H) in M.
  destruct (crossFadeEffect_unmuted _ _ _ _ HA HB M H)
    as (a' & b' & p & -> & P & PB & PA).
  exists a', b', p. cbn [videoARef videoBRef with_videos].
  unfold safeSliderValue in *. cbn [sliderValue with_videos].
  rewrite P, PB, PA. cbn. repeat split; reflexivity.
Qed.

Lemma step_faded (s s' : Player) (ev : Event) :
  settled s -> faded s -> step s ev = Some s' -> faded s'.
Proof.
  intros (a & b & HA & HB & _) F.
  destruct (handle_volumes ev s a b HA HB) as (a1 & b1 & HA1 & HB1 & VA & VB).
  unfold step, commit.
  set (n := handle ev s) in *.
  set (s1 := if Bool.eqb (isPlaying s) (isPlaying n) then n
             else playPauseEffect n).
  assert (S1 : same_state n s1 /\ videoARef s1 = Some a1
               /\ videoBRef s1 = Some b1).
  { subst s1. destruct (Bool.eqb _ _); [repeat split; assumption|].
    destruct (playPauseEffect_frame n) as (S & -> & ->). auto. }
  destruct S1 as (S1 & HA2 & HB2). clearbody s1.
  destruct (Bool.eqb (isMuted s) (isMuted n)) eqn:EM.
  - apply Bool.eqb_prop in EM.
    destruct (Object_is (sliderValue s) (sliderValue n)) eqn:ES; cbn [andb].
    + intros [= <-] M.
      destruct S1 as (ES1 & _ & EM1 & _). rewrite EM1, <- EM in M.
      destruct (F M) as (a0 & b0 & p & HA0 & HB0 & P & PB & PA).
      rewrite HA in HA0. rewrite HB in HB0.
      injection HA0 as <-. injection HB0 as <-.
      exists a1, b1, p. rewrite VA, VB. repeat split; auto.
      apply (safeSliderValue_Object_is s); [|exact P].
      now rewrite ES1.
    + intros H. exact (crossFadeEffect_faded _ _ _ _ HA2 HB2 H).
  - rewrite Bool.andb_false_r. unfold mutedEffect, videos.
    rewrite HA2, HB2. intros H.
    eapply crossFadeEffect_faded; [| |exact H]; reflexivity.
Qed.

(** In every state of the mounted player with the sound on, the
    Foreground volume is the rendered position over 100, the Background
    volume is its complement, and the two add up to 1. *)
Lemma reachable_faded (s : Player) : reachable s -> faded s.
Proof.
  induction 1 as [srcA srcB posterA posterB rect s H | s ev s' R IH H].
  - rewrite mount_total in H. injection H as <-. intros M. discriminate.
  - eapply step_faded; eauto using reachable_settled.
Qed.


(** The scenario of the specification, end to end: the mounted player
    is unmuted (volumes 0.5 and 0.5), the divider goes to 80 (Background
    0.2, Foreground 0.8), the player is muted and the divider goes to 30
    (volumes untouched, both surfaces muted), and unmuting recomputes
    them from 30 (Background 0.7, Foreground 0.3). *)
Example end_to_end :
  let unmute := [CallToggleMuted] in
  let to_80 := unmute ++ [Change (Str "80")] in
  let muted_30 := to_80 ++ [CallSetMuted true; Change (Str "30")] in
  let unmuted_30 := muted_30 ++ [CallSetMuted false] in
  Sample.heard unmute = Some (Fin (1 # 2), Fin (1 # 2), false)
  /\ Sample.heard to_80 = Some (Fin (1 # 5), Fin (4 # 5), false)
  /\ Sample.heard muted_30 = Some (Fin (1 # 5), Fin (4 # 5), true)
  /\ Sample.heard unmuted_30 = Some (Fin (7 # 10), Fin (3 # 10), false).
Proof. vm_compute. repeat split. Qed.

(** ** No event is fatal from a valid position *)

Lemma clamp_valid (p : num) :
  valid_position (Math_max (Fin 0) (Math_min (Fin 100) p)) = true.
Proof.
  destruct p as [| |p|]; try reflexivity.
  unfold Math_min, Math_max, gt, Qlt_bool.
  destruct (Qle_bool_spec 100 p); cbn [negb].
  - reflexivity.
  - destruct (Qle_bool_spec p 0); cbn [negb valid_position]; [reflexivity|].
    destruct (Qle_bool_spec 0 p); [|exfalso; lra].
    destruct (Qle_bool_spec p 100); [|exfalso; lra].
    reflexivity.
Qed.

(** Whatever the pointer and the layout, [calculatePosition] returns NaN
    or a number in [0, 100]. *)
Lemma calculatePosition_valid (s : Player) (clientX : num) :
  valid_position (calculatePosition s clientX) = true.
Proof.
  unfold calculatePosition. destruct (containerRef s) as [rect|].
  - apply clamp_valid.
  - reflexivity.
Qed.

Lemma handle_valid (ev : Event) (s : Player) :
  valid_position (sliderValue s) = true -> well_formed ev = true ->
  valid_position (sliderValue (handle ev s)) = true.
Proof.
  intros V W. destruct ev; cbn [handle well_formed] in *;
    unfold handleSliderChange, togglePlayback, handleMouseDown,
      handleMouseMove, handleMouseUp, handleTouchStart, handleTouchMove,
      handleTouchEnd, toggleMuted, toggleMuted_of, setMuted, playVideos,
      timeupdate, autoPlay;
    repeat match goal with
      | |- context [if ?c then _ else _] => destruct c
      | |- context [match TouchEvent.touches ?e with _ => _ end] =>
          destruct (TouchEvent.touches e)
      | |- context [match videos ?s with _ => _ end] =>
          destruct (videos s) as [[? ?]|]
      | |- context [syncVideos ?x ?y] => destruct (syncVideos x y)
      end;
    cbn; auto using calculatePosition_valid.
Qed.

Lemma crossFadeEffect_total (s : Player) :
  valid_position (sliderValue s) = true ->
  exists s', crossFadeEffect s = Some s'.
Proof.
  intros V. unfold crossFadeEffect.
  destruct (videos s) as [[a b]|]; [|eauto].
  destruct (isMuted s); cbn [negb]; [eauto|].
  assert (P : exists p, (if isNaN (sliderValue s) then Fin 50
                         else sliderValue s) = Fin p /\ 0 <= p <= 100).
  { destruct (sliderValue s) as [| |p|]; try discriminate.
    - exists 50. split; [reflexivity|lra].
    - exists p. split; [reflexivity|].
      cbn in V. apply andb_prop in V. destruct V as (V1 & V2).
      apply Qle_bool_iff in V1, V2. auto. }
  destruct P as (p & -> & R). destruct (percent_in_range p R) as (RB & RA).
  cbn [div sub]. change (Qeq_bool 100 0) with false. cbv iota.
  rewrite !set_volume_in_range by assumption. eauto.
Qed.

(** From a valid position every well-formed event completes, and the
    position stays valid. *)
Lemma step_total (s : Player) (ev : Event) :
  valid_position (sliderValue s) = true -> well_formed ev = true ->
  exists s', step s ev = Some s'
             /\ valid_position (sliderValue s') = true.
Proof.
  intros V W. pose proof (handle_valid ev s V W) as V'.
  unfold step, commit. set (n := handle ev s) in *. clearbody n.
  set (s2 := if Bool.eqb (isMuted s) (isMuted n) then _ else _).
  assert (E : sliderValue s2 = sliderValue n).
  { subst s2. unfold mutedEffect, playPauseEffect.
    repeat match goal with
      | |- context [if ?c then _ else _] => destruct c
      | |- context [match videos ?s with _ => _ end] =>
          destruct (videos s) as [[? ?]|]
      end; reflexivity. }
  clearbody s2. rewrite <- E in V'.
  destruct (_ && _).
  - eauto.
  - destruct (crossFadeEffect_total s2 V') as (s' & H). exists s'.
    split; [exact H|]. revert H. unfold crossFadeEffect.
    repeat match goal with
      | |- context [if ?c then _ else _] => destruct c
      | |- context [match videos ?s with _ => _ end] =>
          destruct (videos s) as [[? ?]|]
      | |- context [match set_volume ?x ?v with _ => _ end] =>
          destruct (set_volume x v)
      end; try discriminate; intros [= <-]; exact V'.
Qed.

(** A touch gesture ends like a mouse gesture: touch-start, touch-move
    and touch-end on the divider handle, then the click, which pauses
    the playing sample. *)
Example click_after_touch_drag :
  let at_ x := Sample.touch Sample.divider_handle x in
  let drag := [TouchStart (at_ 60); TouchMove (at_ 150); TouchEnd] in
  let click := Click (Sample.mouse Sample.divider_handle 150) in
  isPlaying Sample.mounted = true
  /\ option_map isDragging (run Sample.mounted drag) = Some false
  /\ option_map isPlaying (run Sample.mounted (drag ++ [click])) = Some false.
Proof. vm_compute. repeat split. Qed.

(** * Further properties of the player *)

Lemma unmuted_reachable : reachable Sample.unmuted.
Proof.
  apply (reach_step Sample.mounted CallToggleMuted).
  - apply mounted_reachable.
  - reflexivity.
Qed.

(** X1.  Whatever the pointer coordinate and the layout (NaN and
    infinities included), [calculatePosition] returns NaN or a number in
    [0, 100]; it returns NaN only with the container attached, and a
    finite pointer over a container with finite left edge and non-zero
    finite width never gives NaN. *)
Theorem calculatePosition_range (s : Player) (clientX : num) :
  (calculatePosition s clientX = NaN
   \/ exists p, calculatePosition s clientX = Fin p /\ 0 <= p <= 100)
  /\ (calculatePosition s clientX = NaN -> containerRef s <> None)
  /\ (forall x l w, clientX = Fin x ->
        containerRef s = Some (mkRect (Fin l) (Fin w)) -> ~ w == 0 ->
        calculatePosition s clientX <> NaN).
Proof.
  pose proof (calculatePosition_valid s clientX) as V.
  repeat split.
  - destruct (calculatePosition s clientX) as [| |p|]; try discriminate.
    + now left.
    + right. exists p. split; [reflexivity|]. cbn in V.
      apply andb_prop in V. destruct V as (V1 & V2).
      apply Qle_bool_iff in V1, V2. auto.
  - unfold calculatePosition. destruct (containerRef s); congruence.
  - intros x l w -> H W. unfold calculatePosition. rewrite H.
    cbn [left width sub div]. destruct (Qeq_bool_spec w 0); [contradiction|].
    cbn [mul]. unfold Math_min, Math_max.
    repeat match goal with |- context [if ?c then _ else _] => destruct c end;
      discriminate.
Qed.

(** A pointer at 170 over the sample container is never NaN. *)
Lemma calculatePosition_range_witness :
  calculatePosition Sample.mounted (Fin 170) <> NaN.
Proof.
  apply (proj2 (proj2 (calculatePosition_range Sample.mounted (Fin 170)))
           170 10 200); [reflexivity | reflexivity | discriminate].
Defined.

(** X2.  A drag over a container of width 0, the pointer on its left
    edge: the handler stores NaN as the divider position; the position
    rendered is 50 and the clip 50 percent. *)
Theorem drag_on_collapsed_container (s : Player) (e : MouseEvent.t) (x : Q) :
  containerRef s = Some (mkRect (Fin x) (Fin 0)) ->
  MouseEvent.clientX e = Fin x ->
  on_divider_area (MouseEvent.target e) = true ->
  let s' := handleMouseDown e s in
  sliderValue s' = NaN
  /\ isDragging s' = true
  /\ safeSliderValue s' = Fin 50
  /\ clipPercentage s' = Fin (100 - 50)
  /\ sliderValue (handleMouseMove e s') = NaN.
Proof.
  intros C X D. unfold handleMouseDown, handleMouseMove. rewrite D, X.
  cbn [isDragging setIsDragging setSliderValue negb].
  assert (E : forall t, containerRef t = containerRef s ->
                        calculatePosition t (Fin x) = NaN).
  { intros t Ht. apply calculatePosition_zero_width. congruence. }
  rewrite !E by reflexivity.
  unfold clipPercentage, safeSliderValue. cbn. repeat split.
Qed.

Lemma drag_on_collapsed_container_witness :
  let s := with_container (Some (mkRect (Fin 10) (Fin 0))) Sample.mounted in
  let s' := handleMouseDown (Sample.mouse Sample.divider_handle 10) s in
  sliderValue s' = NaN
  /\ isDragging s' = true
  /\ safeSliderValue s' = Fin 50
  /\ clipPercentage s' = Fin (100 - 50)
  /\ sliderValue
       (handleMouseMove (Sample.mouse Sample.divider_handle 10) s') = NaN.
Proof.
  apply (drag_on_collapsed_container
           (with_container (Some (mkRect (Fin 10) (Fin 0))) Sample.mounted)
           (Sample.mouse Sample.divider_handle 10) 10); reflexivity.
Defined.

(** X3.  In every state of the mounted player both video elements are
    attached and carry [muted = isMuted]; so a surface can be audible
    only while [isMuted] is false. *)
Theorem surfaces_muted_with_player (s : Player) :
  reachable s ->
  exists a b,
    videoARef s = Some a /\ videoBRef s = Some b
    /\ muted a = isMuted s /\ muted b = isMuted s
    /\ (audible a = true \/ audible b = true -> isMuted s = false).
Proof.
  intros R. destruct (reachable_settled s R) as (a & b & HA & HB & MA & MB).
  exists a, b. repeat split; auto.
  unfold audible. rewrite MA, MB.
  destruct (isMuted s); [|reflexivity].
  cbn. intros [H|H]; discriminate.
Qed.

Lemma surfaces_muted_with_player_witness :
  exists a b,
    videoARef Sample.unmuted = Some a /\ videoBRef Sample.unmuted = Some b
    /\ muted a = isMuted Sample.unmuted /\ muted b = isMuted Sample.unmuted
    /\ (audible a = true \/ audible b = true ->
        isMuted Sample.unmuted = false).
Proof. apply (surfaces_muted_with_player Sample.unmuted unmuted_reachable). Defined.


(** X5.  From a position that is NaN or in [0, 100], no sequence of
    events takes the player down, as long as every slider change in it
    carries a value that reads as NaN or as a number in [0, 100]; the
    position is NaN or in [0, 100] at the end as well. *)
Theorem well_formed_run_completes (evs : list Event) (s : Player) :
  valid_position (sliderValue s) = true ->
  forallb well_formed evs = true ->
  exists s', run s evs = Some s'
             /\ valid_position (sliderValue s') = true.
Proof.
  revert s. induction evs as [|ev evs IH]; intros s V W.
  - exists s. auto.
  - cbn [forallb] in W. apply andb_prop in W. destruct W as (W1 & W2).
    destruct (step_total s ev V W1) as (s1 & H1 & V1).
    destruct (IH s1 V1 W2) as (s' & H' & V').
    exists s'. cbn [run]. rewrite H1. auto.
Qed.

Lemma well_formed_run_completes_witness :
  exists s',
    run Sample.mounted
        [CallToggleMuted; Change (Str "80");
         MouseDown (Sample.mouse Sample.divider_handle 500);
         MouseUp; Change (Str "abc")] = Some s'
    /\ valid_position (sliderValue s') = true.
Proof.
  apply (well_formed_run_completes
           [CallToggleMuted; Change (Str "80");
            MouseDown (Sample.mouse Sample.divider_handle 500);
            MouseUp; Change (Str "abc")] Sample.mounted);
    reflexivity.
Defined.

Lemma step_unmute_out_of_range (s : Player) (ev : Event) (p : Q) :
  settled s -> isMuted s = true -> sliderValue s = Fin p ->
  p < 0 \/ 100 < p ->
  handle ev s = setIsMuted false s \/
  handle ev s = setIsMuted false (issue [play A; play B] s) ->
  step s ev = None.
Proof.
  intros (a & b & HA & HB & _) M E R H.
  assert (V : videos s = Some (a, b)) by (unfold videos; now rewrite HA, HB).
  unfold step, commit. destruct H as [-> | ->];
    cbn [isPlaying isMuted sliderValue setIsMuted issue];
    rewrite Bool.eqb_reflx, M, Object_is_refl; cbn [Bool.eqb andb];
    unfold mutedEffect, videos; cbn [videoARef videoBRef setIsMuted issue];
    rewrite HA, HB;
    eapply (crossFade_out_of_range _ _ _ p); try reflexivity;
    cbn; auto.
Qed.



Lemma crossFadeEffect_issued (s s' : Player) :
  crossFadeEffect s = Some s' -> issued s' = issued s.
Proof.
  unfold crossFadeEffect. destruct (videos s) as [[a b]|]; [|congruence].
  destruct (negb (isMuted s)); [|congruence].
  destruct (set_volume _ a); [|discriminate].
  destruct (set_volume _ b); [|discriminate].
  now intros [= <-].
Qed.

Lemma commit_setIsMuted (s : Player) (a b : HTMLVideoElement) (m : bool) :
  videoARef s = Some a -> videoBRef s = Some b -> isMuted s <> m ->
  commit s (setIsMuted m s)
  = crossFadeEffect
      (with_videos (set_muted m a) (set_muted m b) (setIsMuted m s)).
Proof.
  intros HA HB D. unfold commit.
  cbn [isPlaying isMuted sliderValue setIsMuted].
  rewrite Bool.eqb_reflx, Object_is_refl.
  destruct (Bool.eqb (isMuted s) m) eqn:E.
  - apply Bool.eqb_prop in E. contradiction.
  - cbn [andb]. unfold mutedEffect, videos.
    cbn [videoARef videoBRef isMuted setIsMuted]. now rewrite HA, HB.
Qed.

(** X7.  [setMuted(muted)] on the mounted player.  Muting always
    completes; whenever the call completes, [isMuted] is [muted], both
    surfaces carry [muted], and no playback command has been sent: unlike
    [toggleMuted()], [setMuted(false)] turns the sound on without calling
    [play()].  Setting the value the player already has changes
    nothing. *)
Theorem setMuted_spec (s : Player) (m : bool) :
  reachable s ->
  (forall s', step s (CallSetMuted m) = Some s' ->
     isMuted s' = m /\ queryMuted s' = m
     /\ surfaces_follow m s'
     /\ issued s' = issued s
     /\ isPlaying s' = isPlaying s /\ sliderValue s' = sliderValue s)
  /\ (exists s', step s (CallSetMuted true) = Some s')
  /\ step s (CallSetMuted (isMuted s)) = Some s.
Proof.
  intros R. pose proof (reachable_settled s R) as I.
  assert (Same : step s (CallSetMuted (isMuted s)) = Some s).
  { unfold step, handle, setMuted.
    replace (setIsMuted (isMuted s) s) with s by now destruct s.
    apply commit_same. }
  destruct I as (a & b & HA & HB & MA & MB).
  split; [|split; [|exact Same]].
  - intros s' H. destruct (Bool.bool_dec (isMuted s) m) as [E|D].
    + subst m. rewrite Same in H. injection H as <-.
      unfold queryMuted. repeat split. exists a, b. auto.
    + unfold step, handle, setMuted in H.
      rewrite (commit_setIsMuted s a b m HA HB D) in H.
      assert (F : surfaces_follow m
                    (with_videos (set_muted m a) (set_muted m b)
                                 (setIsMuted m s))).
      { eexists _, _. cbn. auto. }
      destruct (crossFadeEffect_frame _ _ _ F H)
        as ((ES & EP & EM & _) & F').
      rewrite (crossFadeEffect_issued _ _ H).
      unfold queryMuted. rewrite EM, EP, ES. cbn. repeat split; auto.
  - destruct (Bool.bool_dec (isMuted s) true) as [E|D].
    + exists s. now rewrite <- E at 1.
    + unfold step, handle, setMuted.
      rewrite (commit_setIsMuted s a b true HA HB D).
      rewrite crossFade_muted by reflexivity. eauto.
Qed.
Lemma setMuted_spec_witness :
  exists s',
    step Sample.mounted (CallSetMuted false) = Some s'
    /\ isMuted s' = false
    /\ surfaces_follow false s'
    /\ issued s' = issued Sample.mounted.
Proof.
  eexists. split; [reflexivity|].
  destruct (setMuted_spec Sample.mounted false mounted_reachable) as (H & _).
  destruct (H _ eq_refl) as (E1 & _ & E2 & E3 & _).
  split; [exact E1|]. split; [exact E2|exact E3].
Defined.

Lemma mutedEffect_issued (s : Player) : issued (mutedEffect s) = issued s.
Proof. unfold mutedEffect. now destruct (videos s) as [[a b]|]. Qed.

(** The commands a commit sends are those of the play/pause effect. *)
Lemma commit_issued (prev next s' : Player) :
  commit prev next = Some s' ->
  issued s' = issued (if Bool.eqb (isPlaying prev) (isPlaying next)
                      then next else playPauseEffect next).
Proof.
  unfold commit.
  set (s1 := if Bool.eqb (isPlaying prev) (isPlaying next) then next
             else playPauseEffect next). clearbody s1.
  set (s2 := if Bool.eqb (isMuted prev) (isMuted next) then s1
             else mutedEffect s1).
  assert (E : issued s2 = issued s1).
  { subst s2. destruct (Bool.eqb _ _); [reflexivity|].
    apply mutedEffect_issued. }
  clearbody s2. destruct (_ && _).
  - intros [= <-]. exact E.
  - intros H. now rewrite (crossFadeEffect_issued _ _ H).
Qed.

Lemma commit_playing_only (prev next : Player) :
  isMuted next = isMuted prev -> sliderValue next = sliderValue prev ->
  commit prev next
  = Some (if Bool.eqb (isPlaying prev) (isPlaying next) then next
          else playPauseEffect next).
Proof.
  intros EM ES. unfold commit.
  now rewrite EM, ES, Bool.eqb_reflx, Object_is_refl.
Qed.

(** X8.  [playVideos()] on the mounted player completes; it sends
    [play] to Background and Foreground and leaves [isPlaying] true; if
    the player was paused the commit sends the pair once more.  The
    video elements, the divider and the muted state are not touched. *)
Theorem playVideos_spec (s : Player) :
  reachable s ->
  exists s',
    step s CallPlayVideos = Some s'
    /\ isPlaying s' = true
    /\ issued s'
       = issued s ++ [play A; play B]
         ++ (if isPlaying s then [] else [play A; play B])
    /\ videoARef s' = videoARef s /\ videoBRef s' = videoBRef s
    /\ sliderValue s' = sliderValue s /\ isMuted s' = isMuted s
    /\ isDragging s' = isDragging s.
Proof.
  intros R. destruct (settled_videos s (reachable_settled s R))
    as (a & b & V & _).
  unfold step, handle, playVideos. rewrite V.
  rewrite commit_playing_only by reflexivity.
  cbn [isPlaying setIsPlaying issue].
  destruct (isPlaying s) eqn:P; cbn [Bool.eqb].
  - eexists. split; [reflexivity|]. cbn. repeat split.
  - eexists. split; [reflexivity|]. unfold playPauseEffect.
    assert (V' : videos (setIsPlaying true (issue [play A; play B] s))
                 = Some (a, b)) by exact V.
    rewrite V'. cbn. rewrite <- app_assoc. repeat split.
Qed.

Lemma playVideos_spec_witness :
  exists s',
    step Sample.mounted CallPlayVideos = Some s'
    /\ isPlaying s' = true
    /\ issued s'
       = issued Sample.mounted ++ [play A; play B]
         ++ (if isPlaying Sample.mounted then [] else [play A; play B])
    /\ videoARef s' = videoARef Sample.mounted
    /\ videoBRef s' = videoBRef Sample.mounted
    /\ sliderValue s' = sliderValue Sample.mounted
    /\ isMuted s' = isMuted Sample.mounted
    /\ isDragging s' = isDragging Sample.mounted.
Proof. apply (playVideos_spec Sample.mounted mounted_reachable). Defined.

(** X9.  On the mounted player, with no drag in progress, a click
    whose target is not the slider completes, flips [isPlaying], and
    sends the matching command to both surfaces: [play] when the player
    now plays, [pause] when it is now paused; nothing else changes.  A
    second such click restores [isPlaying]. *)
Theorem togglePlayback_spec (s : Player) (e : MouseEvent.t) :
  reachable s ->
  isDragging s = false ->
  contains "compare-slider" (classList (MouseEvent.target e)) = false ->
  exists s',
    step s (Click e) = Some s'
    /\ isPlaying s' = negb (isPlaying s)
    /\ issued s'
       = issued s ++ (if isPlaying s then [pause A; pause B]
                      else [play A; play B])
    /\ videoARef s' = videoARef s /\ videoBRef s' = videoBRef s
    /\ sliderValue s' = sliderValue s /\ isMuted s' = isMuted s
    /\ isDragging s' = false
    /\ exists s'', step s' (Click e) = Some s''
                   /\ isPlaying s'' = isPlaying s.
Proof.
  intros R D C. destruct (settled_videos s (reachable_settled s R))
    as (a & b & V & _).
  assert (P : forall t, videos t = videos s -> isDragging t = false ->
                step t (Click e)
                = Some (issue (if isPlaying t then [pause A; pause B]
                               else [play A; play B])
                              (setIsPlaying (negb (isPlaying t)) t))).
  { intros t Vt Dt. destruct (click_toggles t e Dt C) as (_ & ->).
    unfold playPauseEffect.
    assert (V' : videos (setIsPlaying (negb (isPlaying t)) t) = Some (a, b))
      by (rewrite <- V, <- Vt; reflexivity).
    rewrite V'. cbn [isPlaying setIsPlaying]. now destruct (isPlaying t). }
  eexists. split; [apply P; auto|].
  cbn. repeat split; auto.
  eexists. split; [apply P; auto|].
  cbn. now rewrite Bool.negb_involutive.
Qed.

Lemma togglePlayback_spec_witness :
  let e := Sample.mouse Sample.video_top 60 in
  exists s',
    step Sample.mounted (Click e) = Some s'
    /\ isPlaying s' = negb (isPlaying Sample.mounted)
    /\ issued s'
       = issued Sample.mounted
         ++ (if isPlaying Sample.mounted then [pause A; pause B]
             else [play A; play B])
    /\ videoARef s' = videoARef Sample.mounted
    /\ videoBRef s' = videoBRef Sample.mounted
    /\ sliderValue s' = sliderValue Sample.mounted
    /\ isMuted s' = isMuted Sample.mounted
    /\ isDragging s' = false
    /\ exists s'', step s' (Click e) = Some s''
                   /\ isPlaying s'' = isPlaying Sample.mounted.
Proof.
  apply (togglePlayback_spec Sample.mounted
           (Sample.mouse Sample.video_top 60) mounted_reachable);
    reflexivity.
Defined.

(** X10.  [toggleMuted()] on a paused, muted player: the call sends
    [play] to both surfaces, and whenever it completes the sound is on
    while [isPlaying] is still false, so the last commands sent no longer
    match [isPlaying]. *)
Theorem unmute_while_paused (s s' : Player) :
  reachable s ->
  isPlaying s = false ->
  isMuted s = true ->
  step s CallToggleMuted = Some s' ->
  isMuted s' = false
  /\ isPlaying s' = false
  /\ issued s' = issued s ++ [play A; play B]
  /\ ~ in_step s'.
Proof.
  intros R P M H. pose proof (reachable_settled s R) as I.
  destruct (settled_videos s I) as (a & b & V & _).
  destruct (step_state _ _ _ I H) as (_ & _ & EP & EM & _).
  pose proof (commit_issued _ _ _ H) as EI.
  revert EP EM EI. cbn [handle]. unfold toggleMuted, toggleMuted_of.
  rewrite M, V. cbn [negb snd isPlaying isMuted setIsMuted issue].
  rewrite P. cbn [Bool.eqb issued setIsMuted issue].
  intros EP EM EI. repeat split; auto.
  intros (front & E). unfold in_step in *. rewrite EP, EI in E.
  apply (f_equal (@rev Command)) in E. rewrite !rev_app_distr in E.
  cbn in E. discriminate.
Qed.

Lemma unmute_while_paused_witness :
  exists s s',
    step Sample.mounted (Click (Sample.mouse Sample.video_top 60)) = Some s
    /\ step s CallToggleMuted = Some s'
    /\ isMuted s' = false
    /\ isPlaying s' = false
    /\ issued s' = issued s ++ [play A; play B].
Proof.
  eexists _, _. split; [reflexivity|]. split; [reflexivity|].
  match goal with |- isMuted ?t' = _ /\ _ =>
    match goal with |- context [issued ?t ++ _] =>
      destruct (unmute_while_paused t t') as (E1 & E2 & E3 & _)
    end
  end.
  - apply (reach_step Sample.mounted
             (Click (Sample.mouse Sample.video_top 60)));
      [apply mounted_reachable | reflexivity].
  - reflexivity.
  - reflexivity.
  - reflexivity.
  - auto.
Defined.

(** * The card and the player it hosts *)

Lemma hostToggle_two_calls (p : Player) :
  settled p ->
  hostToggle p = run p [CallPlayVideos; CallToggleMuted].
Proof.
  intros (a & b & HA & HB & _).
  destruct p as [sv ip im idr va vb cr iss]. cbn in HA, HB. subst va vb.
  destruct ip, im;
    cbv - [Object_is set_volume JS.div JS.sub isNaN app];
    rewrite ?Object_is_refl;
    cbv - [Object_is set_volume JS.div JS.sub isNaN app];
    rewrite ?Object_is_refl;
    cbv - [Object_is set_volume JS.div JS.sub isNaN app];
    rewrite <- ?app_assoc;
    repeat match goal with
      | |- context [set_volume ?x ?v] => destruct (set_volume x v)
      end;
    reflexivity.
Qed.

Lemma ends_with_app {T : Type} (front suffix : list T) :
  ends_with suffix (front ++ suffix).
Proof. now exists front. Qed.

Lemma ends_with_app_app {T : Type} (front middle suffix : list T) :
  ends_with suffix (front ++ middle ++ suffix).
Proof. exists (front ++ middle). now rewrite app_assoc. Qed.

Lemma hostToggle_state (p p' : Player) :
  settled p -> hostToggle p = Some p' ->
  settled p'
  /\ isMuted p' = negb (isMuted p)
  /\ isPlaying p' = true
  /\ sliderValue p' = sliderValue p
  /\ isDragging p' = isDragging p
  /\ in_step p'.
Proof.
  intros I H. unfold hostToggle in H.
  destruct (settled_videos p I) as (a & b & V & _).
  set (next := snd (toggleMuted_of (isMuted p) (playVideos p))) in *.
  assert (N : isMuted next = negb (isMuted p) /\ isPlaying next = true
              /\ sliderValue next = sliderValue p
              /\ isDragging next = isDragging p
              /\ videos next = Some (a, b)
              /\ ends_with [play A; play B] (issued next)).
  { subst next. unfold toggleMuted_of, playVideos. rewrite V.
    cbn [snd]. 
    assert (V1 : videos (setIsPlaying true (issue [play A; play B] p))
                 = Some (a, b)) by exact V.
    rewrite V1. destruct (negb (negb (isMuted p))); cbn; repeat split;
      auto; try apply ends_with_app; try apply ends_with_app_app. }
  destruct N as (NM & NP & NS & ND & NV & NE).
  assert (F : surfaces_follow (isMuted p) next).
  { destruct I as (a0 & b0 & HA & HB & M). exists a0, b0.
    subst next. unfold toggleMuted_of, playVideos. rewrite V.
    assert (V1 : videos (setIsPlaying true (issue [play A; play B] p))
                 = Some (a, b)) by exact V.
    rewrite V1. destruct (negb (negb (isMuted p))); cbn; auto. }
  destruct (commit_settles _ _ _ F H) as (I' & ES & EP & EM & ED & _).
  pose proof (commit_issued _ _ _ H) as EI.
  repeat split; try congruence.
  unfold in_step. rewrite EP, NP, EI.
  destruct (Bool.eqb (isPlaying p) (isPlaying next)); [exact NE|].
  unfold playPauseEffect. rewrite NV, NP. cbn. apply ends_with_app.
Qed.

Lemma toggleVideoAudio_player (c : MissionLog.Card) (p : Player) :
  MissionLog.comparePlayerRef c = Some p ->
  MissionLog.toggleVideoAudio c
  = match hostToggle p with
    | Some p' =>
        Some (MissionLog.setIsVideoAudioOn (isMuted p)
                (MissionLog.with_player p' (MissionLog.playClickSound c)))
    | None => None
    end.
Proof.
  intros H. unfold MissionLog.toggleVideoAudio, hostToggle.
  assert (E : MissionLog.comparePlayerRef (MissionLog.playClickSound c)
              = Some p).
  { unfold MissionLog.playClickSound.
    now destruct (MissionLog.clickSoundRef c). }
  rewrite E. unfold toggleMuted_of. cbn [snd].
  now rewrite Bool.negb_involutive.
Qed.

(** X11.  The card's sound button, with the player mounted.  It calls
    [playVideos()] and [toggleMuted()] on the same handle and the two
    updates are committed together; the player ends in the state the two
    calls reach one after the other.  Whenever the handler completes, the
    card's [isVideoAudioOn] is the opposite of the player's new
    [isMuted], the player plays ([isPlaying] true, also when the button
    muted it), and one click sound was played.  The handler completes
    whenever the divider position is NaN or in [0, 100]. *)
Theorem toggleVideoAudio_spec (c : MissionLog.Card) (p : Player) :
  MissionLog.comparePlayerRef c = Some p ->
  reachable p ->
  (forall c', MissionLog.toggleVideoAudio c = Some c' ->
     exists p',
       MissionLog.comparePlayerRef c' = Some p'
       /\ run p [CallPlayVideos; CallToggleMuted] = Some p'
       /\ reachable p'
       /\ isMuted p' = negb (isMuted p)
       /\ MissionLog.isVideoAudioOn c' = negb (isMuted p')
       /\ isPlaying p' = true
       /\ MissionLog.clicks c'
          = (MissionLog.clicks c
             + if MissionLog.clickSoundRef c then 1 else 0)%nat)
  /\ (valid_position (sliderValue p) = true ->
      exists c', MissionLog.toggleVideoAudio c = Some c').
Proof.
  intros C R. pose proof (reachable_settled p R) as I.
  rewrite (toggleVideoAudio_player c p C).
  pose proof (hostToggle_two_calls p I) as T. split.
  - intros c' H. destruct (hostToggle p) as [p'|] eqn:E; [|discriminate].
    injection H as <-. exists p'.
    destruct (hostToggle_state p p' I E) as (_ & EM & EP & _).
    repeat split; auto.
    + cbn [run] in T. destruct (step p CallPlayVideos) as [p1|] eqn:S1;
        [|discriminate].
      destruct (step p1 CallToggleMuted) as [p2|] eqn:S2; [|discriminate].
      injection T as ->.
      apply (reach_step p1 CallToggleMuted); [|exact S2].
      apply (reach_step p CallPlayVideos); assumption.
    + cbn. now rewrite EM, Bool.negb_involutive.
    + unfold MissionLog.playClickSound.
      destruct (MissionLog.clickSoundRef c); cbn; lia.
  - intros V.
    destruct (step_total p CallPlayVideos V eq_refl) as (p1 & H1 & V1).
    destruct (step_total p1 CallToggleMuted V1 eq_refl) as (p2 & H2 & _).
    rewrite T. cbn [run]. rewrite H1, H2. eauto.
Qed.

Lemma toggleVideoAudio_spec_witness :
  exists c' p',
    MissionLog.toggleVideoAudio CardSample.card = Some c'
    /\ MissionLog.comparePlayerRef c' = Some p'
    /\ isMuted p' = negb (isMuted Sample.mounted)
    /\ MissionLog.isVideoAudioOn c' = negb (isMuted p')
    /\ isPlaying p' = true.
Proof.
  destruct (toggleVideoAudio_spec CardSample.card Sample.mounted eq_refl
              mounted_reachable) as (H & T).
  destruct (T eq_refl) as (c' & E).
  destruct (H c' E) as (p' & E1 & _ & _ & E2 & E3 & E4 & _).
  exists c', p'. auto.
Defined.

Lemma handle_page_muted (ev : Event) (s : Player) :
  page_event ev = true -> isMuted (handle ev s) = isMuted s.
Proof.
  destruct ev; try discriminate; intros _; cbn [handle];
    unfold handleSliderChange, togglePlayback, handleMouseDown,
      handleMouseMove, handleMouseUp, handleTouchStart, handleTouchMove,
      handleTouchEnd, timeupdate, autoPlay;
    repeat match goal with
      | |- context [if ?c then _ else _] => destruct c
      | |- context [match TouchEvent.touches ?e with _ => _ end] =>
          destruct (TouchEvent.touches e)
      | |- context [match videos ?s with _ => _ end] =>
          destruct (videos s) as [[? ?]|]
      | |- context [syncVideos ?x ?y] => destruct (syncVideos x y)
      end;
    reflexivity.
Qed.

Lemma handle_quiet (ev : Event) (s : Player) :
  match ev with
  | Click _ | AutoPlayTimer | CallToggleMuted | CallPlayVideos => True
  | _ => isPlaying (handle ev s) = isPlaying s
         /\ issued (handle ev s) = issued s
  end.
Proof.
  destruct ev; try exact I; cbn [handle];
    unfold handleSliderChange, handleMouseDown, handleMouseMove,
      handleMouseUp, handleTouchStart, handleTouchMove, handleTouchEnd,
      setMuted, timeupdate;
    repeat match goal with
      | |- context [if ?c then _ else _] => destruct c
      | |- context [match TouchEvent.touches ?e with _ => _ end] =>
          destruct (TouchEvent.touches e)
      | |- context [match videos ?s with _ => _ end] =>
          destruct (videos s) as [[? ?]|]
      | |- context [syncVideos ?x ?y] => destruct (syncVideos x y)
      end;
    split; reflexivity.
Qed.

Lemma page_step_in_step (p p' : Player) (ev : Event) :
  settled p -> in_step p -> page_event ev = true ->
  step p ev = Some p' ->
  in_step p' /\ isMuted p' = isMuted p.
Proof.
  intros I S PE H.
  destruct (step_state _ _ _ I H) as (_ & _ & EP & EM & _).
  pose proof (commit_issued _ _ _ H) as EI.
  pose proof (handle_page_muted ev p PE) as HM.
  split; [|congruence].
  destruct (settled_videos p I) as (a & b & V & _).
  unfold in_step in *. rewrite EP, EI. clear EP EI EM H.
  pose proof (handle_quiet ev p) as Q.
  destruct ev; try discriminate;
    try (destruct Q as (Q1 & Q2); rewrite Q1, Bool.eqb_reflx, Q2;
         exact S).
  - (* Click *)
    cbn [handle]. unfold togglePlayback.
    destruct (_ || _); [now rewrite Bool.eqb_reflx|].
    cbn [isPlaying setIsPlaying].
    replace (Bool.eqb (isPlaying p) (negb (isPlaying p))) with false
      by now destruct (isPlaying p).
    unfold playPauseEffect.
    assert (V' : videos (setIsPlaying (negb (isPlaying p)) p) = Some (a, b))
      by exact V.
    rewrite V'. cbn [isPlaying setIsPlaying].
    destruct (negb (isPlaying p)); apply ends_with_app.
  - (* the delayed auto-play *)
    cbn [handle]. unfold autoPlay. cbn [isPlaying setIsPlaying].
    destruct (Bool.eqb (isPlaying p) true).
    + apply ends_with_app.
    + unfold playPauseEffect.
      assert (V' : videos (setIsPlaying true (issue [play A; play B] p))
                   = Some (a, b)) by exact V.
      rewrite V'. cbn. apply ends_with_app.
Qed.

Lemma mounted_in_step srcA srcB posterA posterB rect p :
  mount srcA srcB posterA posterB rect = Some p ->
  in_step p /\ isMuted p = true.
Proof.
  rewrite mount_total. intros [= <-]. split; [|reflexivity].
  exists [pause A; pause B; play A; play B]. reflexivity.
Qed.



(** The card after the sound button and a click on the video: sound on,
    paused, the button still showing the sound as on. *)
Example hosted_run_sample :
  let after :=
    MissionLog.run CardSample.card
      [MissionLog.SoundButton;
       MissionLog.InPlayer (Click (Sample.mouse Sample.video_top 60))] in
  option_map MissionLog.isVideoAudioOn after = Some true
  /\ option_map (fun c => option_map isMuted (MissionLog.comparePlayerRef c))
                after = Some (Some false)
  /\ option_map (fun c => option_map isPlaying (MissionLog.comparePlayerRef c))
                after = Some (Some false).
Proof. vm_compute. repeat split. Qed.

(** * The card's audio track *)

Lemma Qfloor_unique (x : Q) (k : Z) :
  inject_Z k <= x -> x < inject_Z (k + 1) -> Qfloor x = k.
Proof.
  intros L U.
  pose proof (Qfloor_le x) as FL. pose proof (Qlt_floor x) as FU.
  assert (A : inject_Z k < inject_Z (Qfloor x + 1)) by lra.
  assert (B : inject_Z (Qfloor x) < inject_Z (k + 1)) by lra.
  rewrite <- Zlt_Qlt in A, B. lia.
Qed.

Lemma Qfloor_div_60 (q : Q) : Qfloor (q / 60) = (Qfloor q / 60)%Z.
Proof.
  pose proof (Qfloor_le q) as FL. pose proof (Qlt_floor q) as FU.
  set (z := Qfloor q) in *.
  pose proof (Z.div_mod z 60 ltac:(lia)) as DM.
  pose proof (Z.mod_pos_bound z 60 ltac:(lia)) as MB.
  set (k := (z / 60)%Z) in *. set (r := (z mod 60)%Z) in *.
  assert (Zk : inject_Z z == 60 * inject_Z k + inject_Z r).
  { rewrite DM, inject_Z_plus, inject_Z_mult. reflexivity. }
  assert (R0 : inject_Z 0 <= inject_Z r) by (rewrite <- Zle_Qle; lia).
  assert (R1 : inject_Z r <= inject_Z 59) by (rewrite <- Zle_Qle; lia).
  change (inject_Z 0) with 0 in R0. change (inject_Z 59) with 59 in R1.
  assert (Z1 : inject_Z (z + 1) == inject_Z z + 1)
    by (rewrite inject_Z_plus; reflexivity).
  assert (K1 : inject_Z (k + 1) == inject_Z k + 1)
    by (rewrite inject_Z_plus; reflexivity).
  apply Qfloor_unique.
  - unfold Qdiv. change (/ 60) with (1 # 60). lra.
  - unfold Qdiv. change (/ 60) with (1 # 60). lra.
Qed.

Lemma Qfloor_minus_60 (q : Q) (k : Z) :
  Qfloor (q - 60 * inject_Z k) = (Qfloor q - 60 * k)%Z.
Proof.
  pose proof (Qfloor_le q) as FL. pose proof (Qlt_floor q) as FU.
  assert (Z1 : inject_Z (Qfloor q + 1) == inject_Z (Qfloor q) + 1)
    by (rewrite inject_Z_plus; reflexivity).
  apply Qfloor_unique.
  - unfold Z.sub. rewrite inject_Z_plus, inject_Z_opp, inject_Z_mult.
    change (inject_Z 60) with 60. lra.
  - unfold Z.sub. rewrite !inject_Z_plus, inject_Z_opp, inject_Z_mult.
    change (inject_Z 60) with 60. change (inject_Z 1) with 1. lra.
Qed.

Lemma padStart_two_digits (z : Z) :
  (0 <= z < 60)%Z ->
  JSLib.padStart 2 "0" (JSLib.toString (JSLib.Int z)) = two_digits z.
Proof.
  intros R.
  assert (H : forallb (fun n =>
                String.eqb
                  (JSLib.padStart 2 "0"
                     (JSLib.toString (JSLib.Int (Z.of_nat n))))
                  (two_digits (Z.of_nat n)))
                (seq 0 60) = true) by (vm_compute; reflexivity).
  rewrite forallb_forall in H.
  specialize (H (Z.to_nat z)). rewrite Z2Nat.id in H by lia.
  apply String.eqb_eq, H, in_seq. lia.
Qed.

(** The two floors [formatTime] takes are the quotient and the remainder
    of the whole seconds by 60. *)
Lemma formatTime_floor (q : Q) :
  0 < q ->
  MissionLog.formatTime (Fin q)
  = (JSLib.toString (JSLib.Int (Qfloor q / 60)) ++ ":"
     ++ JSLib.padStart 2 "0"
          (JSLib.toString (JSLib.Int (Qfloor q mod 60))))%string.
Proof.
  intros P.
  unfold MissionLog.formatTime, JSLib.truthy.
  destruct (Qeq_bool_spec q 0) as [E|_]; [exfalso; lra|].
  cbn [negb isNaN orb JS.div JSLib.rem].
  change (Qeq_bool 60 0) with false. cbv iota.
  cbn [JSLib.Math_floor].
  assert (Tr : JSLib.Qtruncate (q / 60) = (Qfloor q / 60)%Z).
  { unfold JSLib.Qtruncate, Qlt_bool.
    destruct (Qle_bool_spec 0 (q / 60)) as [_|N]; cbn [negb].
    - apply Qfloor_div_60.
    - exfalso. apply N. unfold Qdiv. change (/ 60) with (1 # 60). lra. }
  rewrite Tr, Qfloor_div_60, Qfloor_minus_60.
  replace (Qfloor q - 60 * (Qfloor q / 60))%Z with (Qfloor q mod 60)%Z;
    [reflexivity|].
  pose proof (Z.div_mod (Qfloor q) 60 ltac:(lia)). lia.
Qed.



Example formatTime_samples :
  map MissionLog.formatTime
      [Fin (1257 # 10); Fin 5; Fin 59; Fin 60; Fin 3600; Fin (1 # 2)]
  = ["2:05"; "0:05"; "0:59"; "1:00"; "60:00"; "0:00"]%string.
Proof. reflexivity. Qed.

(** X14.  What [formatTime] prints when there is no time to print: for
    NaN and for zero the placeholder ["0:00"]; for [Infinity], the
    duration of an unbounded stream, ["Infinity:NaN"], and for
    [-Infinity] ["-Infinity:NaN"]. *)
Theorem formatTime_edges :
  MissionLog.formatTime NaN = "0:00"%string
  /\ (forall q, q == 0 -> MissionLog.formatTime (Fin q) = "0:00"%string)
  /\ MissionLog.formatTime PInf = "Infinity:NaN"%string
  /\ MissionLog.formatTime NInf = "-Infinity:NaN"%string.
Proof.
  repeat split.
  intros q E. unfold MissionLog.formatTime, JSLib.truthy.
  destruct (Qeq_bool_spec q 0); [reflexivity|contradiction].
Qed.

(** Zero written as [0/7]. *)
Lemma formatTime_edges_witness :
  MissionLog.formatTime (Fin (0 # 7)) = "0:00"%string.
Proof.
  apply (proj1 (proj2 formatTime_edges)). reflexivity.
Defined.

(** ** Reading back what was printed *)

Lemma digits_of_uint_acc (d : Decimal.uint) :
  forall (acc : positive) (cnt : nat),
    JS.digits 10 (Zpos acc) cnt
              (list_ascii_of_string (NilEmpty.string_of_uint d))
    = (Zpos (Pos.of_uint_acc d acc), (cnt + Decimal.nb_digits d)%nat, []).
Proof.
  induction d; intros acc cnt;
    cbn [NilEmpty.string_of_uint list_ascii_of_string JS.digits
         Pos.of_uint_acc Decimal.nb_digits];
    try (rewrite Nat.add_0_r; reflexivity);
    match goal with
    | |- context [JS.digit_of 10 ?c] =>
        let v := eval vm_compute in (JS.digit_of 10 c) in
        change (JS.digit_of 10 c) with v
    end;
    cbv iota;
    match goal with
    | |- JS.digits 10 ?a _ _ = (Zpos (Pos.of_uint_acc _ ?p), _, _) =>
        replace a with (Zpos p) by lia
    end;
    rewrite IHd; f_equal; f_equal; lia.
Qed.

Lemma digits_of_uint (d : Decimal.uint) :
  forall cnt : nat,
    JS.digits 10 0 cnt (list_ascii_of_string (NilEmpty.string_of_uint d))
    = (Z.of_N (Pos.of_uint d), (cnt + Decimal.nb_digits d)%nat, []).
Proof.
  induction d; intros cnt;
    cbn [NilEmpty.string_of_uint list_ascii_of_string JS.digits
         Pos.of_uint Decimal.nb_digits];
    try (rewrite Nat.add_0_r; reflexivity);
    match goal with
    | |- context [JS.digit_of 10 ?c] =>
        let v := eval vm_compute in (JS.digit_of 10 c) in
        change (JS.digit_of 10 c) with v
    end;
    cbv iota.
  1: { change (0 * 10 + 0)%Z with 0%Z. rewrite IHd. f_equal. f_equal. lia. }
  all: match goal with
       | |- JS.digits 10 ?a _ _ = _ =>
           let v := eval vm_compute in a in change a with v
       end;
       rewrite digits_of_uint_acc; cbn [Z.of_N]; f_equal; f_equal; lia.
Qed.

Lemma Qred_inject_Z (z : Z) : Qred (inject_Z z) = inject_Z z.
Proof.
  unfold Qred, inject_Z.
  pose proof (Z.ggcd_gcd z 1) as G.
  pose proof (Z.ggcd_correct_divisors z 1) as D.
  destruct (Z.ggcd z 1) as [g [a b]]. cbn [fst snd] in *.
  rewrite Z.gcd_1_r in G. subst g. destruct D as [Da Db].
  rewrite Z.mul_1_l in Da, Db. subst a b. reflexivity.
Qed.

Lemma Qred_inject_Z_scaled (z : Z) : Qred (inject_Z z * 1) = inject_Z z.
Proof.
  replace (inject_Z z * 1) with (inject_Z z); [apply Qred_inject_Z|].
  unfold inject_Z, Qmult. cbn [Qnum Qden Pos.mul]. now rewrite Z.mul_1_r.
Qed.

Lemma digit_not_space (d : Decimal.uint) :
  Forall (fun c => JS.is_space c = false)
         (list_ascii_of_string (NilEmpty.string_of_uint d)).
Proof.
  induction d; cbn [NilEmpty.string_of_uint list_ascii_of_string];
    constructor; solve [reflexivity | assumption].
Qed.

Lemma trim_no_space (l : list ascii) :
  Forall (fun c => JS.is_space c = false) l -> JS.trim l = l.
Proof.
  intros F.
  assert (T : forall k, Forall (fun c => JS.is_space c = false) k ->
                        JS.trim_start k = k).
  { intros [|c k] Fk; [reflexivity|]. cbn [JS.trim_start].
    now rewrite (Forall_inv Fk). }
  unfold JS.trim. rewrite (T l F), T, rev_involutive; [reflexivity|].
  now apply Forall_rev.
Qed.

Lemma StringToNumber_digits (d : Decimal.uint) :
  d <> Decimal.Nil ->
  JS.StringToNumber (NilEmpty.string_of_uint d)
  = Fin (inject_Z (Z.of_N (Pos.of_uint d))).
Proof.
  intros N0.
  assert (U : JS.unsigned_decimal
                (list_ascii_of_string (NilEmpty.string_of_uint d))
              = Fin (inject_Z (Z.of_N (Pos.of_uint d)))).
  { unfold JS.unsigned_decimal.
    destruct (list_eq_dec ascii_dec _ _) as [E|_].
    { destruct d; [congruence| ..]; discriminate E. }
    rewrite digits_of_uint.
    destruct d; [congruence| ..];
      cbn [Decimal.nb_digits Nat.add JS.exponent_part Z.of_nat Z.sub
           Z.opp Z.add Qpower];
      now rewrite Qred_inject_Z_scaled. }
  unfold JS.StringToNumber. rewrite trim_no_space by apply digit_not_space.
  rewrite <- U.
  destruct d; [congruence| ..];
    cbn [NilEmpty.string_of_uint list_ascii_of_string];
    try reflexivity; destruct d; reflexivity.
Qed.

Lemma Number_decimal (n : N) :
  JS.Number (Str (JSLib.decimal n)) = Fin (inject_Z (Z.of_N n)).
Proof.
  unfold JS.Number, JSLib.decimal.
  pose proof (DecimalN.Unsigned.of_to n) as R.
  assert (NN : N.to_uint n <> Decimal.Nil).
  { destruct n; [discriminate|]. apply DecimalPos.Unsigned.to_uint_nonnil. }
  unfold N.of_uint in R.
  destruct (N.to_uint n) eqn:E; [congruence| ..];
    cbv beta iota delta [NilZero.string_of_uint];
    (rewrite StringToNumber_digits by discriminate); now rewrite R.
Qed.

Lemma Number_two_digits (z : Z) :
  (0 <= z < 60)%Z ->
  JS.Number (Str (JSLib.padStart 2 "0" (JSLib.toString (JSLib.Int z))))
  = Fin (inject_Z z).
Proof.
  intros R.
  assert (H : forallb (fun n =>
                match JS.Number
                        (Str (JSLib.padStart 2 "0"
                                (JSLib.toString (JSLib.Int (Z.of_nat n)))))
                with
                | Fin (a # b) => (a =? Z.of_nat n)%Z && (b =? 1)%positive
                | _ => false
                end)
                (seq 0 60) = true) by (vm_compute; reflexivity).
  rewrite forallb_forall in H.
  specialize (H (Z.to_nat z)). rewrite Z2Nat.id in H by lia.
  destruct (JS.Number _) as [| |[a b]|];
    try (discriminate H; apply in_seq; lia).
  assert (I : In (Z.to_nat z) (seq 0 60)) by (apply in_seq; lia).
  specialize (H I). apply andb_true_iff in H as [Ha Hb].
  apply Z.eqb_eq in Ha. apply Pos.eqb_eq in Hb. now subst.
Qed.



(** ** The progress bar *)

Lemma Qdiv_bounds (a b : Q) : 0 < b -> 0 <= a <= b -> 0 <= a / b <= 1.
Proof.
  intros B [A0 A1]. split.
  - apply Qle_shift_div_l; [assumption|]. lra.
  - apply Qle_shift_div_r; [assumption|]. lra.
Qed.





(** X18.  A click on the progress bar that cannot be turned into a time
    throws and seeks nothing: with an audio element and a duration that
    is not zero, the handler throws at the [currentTime] setter, before
    any state is set, whenever the duration is NaN or infinite (a live
    stream) or the bar has no width, wherever the click was. *)
Theorem handleProgressClick_throws
        (c : MissionLog.Card) (rect : DOMRect) (clientX : num) :
  MissionLog.audioRef c = true ->
  JSLib.strict_eq (MissionLog.audioDuration c) (Fin 0) = false ->
  JSLib.isFinite (MissionLog.audioDuration c) = false
  \/ (exists w, width rect = Fin w /\ w == 0) ->
  MissionLog.handleProgressClick rect clientX c = MissionLog.Throw c.
Proof.
  intros A Z H.
  unfold MissionLog.handleProgressClick. rewrite A, Z. cbn [negb orb].
  assert (F : JSLib.isFinite
                (JS.mul (JS.div (JS.sub clientX (left rect)) (width rect))
                        (MissionLog.audioDuration c)) = false).
  { destruct H as [I | (w & W & W0)].
    - destruct (MissionLog.audioDuration c) as [| |d|]; try discriminate I;
        destruct (JS.div _ _) as [| |f|]; try reflexivity; cbn [JS.mul];
        destruct (Qeq_bool f 0); try reflexivity;
        unfold signed_inf; destruct (Qlt_bool _ _); reflexivity.
    - rewrite W.
      assert (I : JSLib.isFinite
                    (JS.div (JS.sub clientX (left rect)) (Fin w)) = false).
      { destruct (JS.sub _ _) as [| |a|]; cbn [JS.div];
          destruct (Qeq_bool_spec w 0) as [_|N]; try contradiction;
          try reflexivity.
        - unfold Qlt_bool. destruct (Qle_bool_spec 0 w) as [_|N];
            [reflexivity | exfalso; apply N; lra].
        - destruct (Qeq_bool a 0); [reflexivity|].
          destruct (Qlt_bool 0 a); reflexivity.
        - destruct (Qle_bool_spec 0 w) as [_|N];
            [reflexivity | exfalso; apply N; lra]. }
      destruct (JS.div _ _) as [| |f|]; try discriminate I;
        destruct (MissionLog.audioDuration c) as [| |d|];
        try discriminate Z; try reflexivity;
        cbn [JS.mul JSLib.strict_eq] in *; rewrite Z;
        unfold signed_inf; destruct (Qlt_bool _ _); reflexivity. }
  rewrite F. reflexivity.
Qed.

(** A click on the bar of a live stream. *)
Lemma handleProgressClick_throws_witness :
  MissionLog.handleProgressClick
    CardSample.bar (Fin 170)
    (MissionLog.setAudioDuration PInf CardSample.audio_card)
  = MissionLog.Throw (MissionLog.setAudioDuration PInf CardSample.audio_card).
Proof.
  apply handleProgressClick_throws; [reflexivity | reflexivity |].
  left. reflexivity.
Defined.

(** ** The play button and the audio element *)

Lemma transport_app (st : option bool) (a b : list MissionLog.AudioCommand) :
  transport st (a ++ b) = transport (transport st a) b.
Proof.
  revert st. induction a as [|[| |t] a IH]; intros st; cbn; auto.
Qed.

Lemma step_playing_told (c c' : MissionLog.Card) (ev : MissionLog.Event) :
  playing_told c -> MissionLog.step c ev = Some c' -> playing_told c'.
Proof.
  unfold playing_told. intros I S.
  destruct ev; cbn [MissionLog.step] in S.
  - injection S as <-. unfold MissionLog.toggleExpanded,
      MissionLog.playClickSound. destruct (MissionLog.clickSoundRef c); exact I.
  - injection S as <-.
    destruct c as [u ex pl va du pr ar cs cp se cl op].
    unfold MissionLog.toggleAudio, MissionLog.playClickSound.
    cbn [MissionLog.isPlaying MissionLog.audioRef MissionLog.sent
         MissionLog.clickSoundRef] in I.
    destruct cs, ar, pl; cbn; intros H; try discriminate H;
      try (now apply I); (split; [reflexivity|]);
      rewrite transport_app; reflexivity.
  - unfold MissionLog.toggleVideoAudio, MissionLog.playClickSound in S.
    destruct (MissionLog.clickSoundRef c);
      cbn [MissionLog.comparePlayerRef] in S;
      destruct (MissionLog.comparePlayerRef c) as [p|];
      try (injection S as <-; exact I);
      destruct (toggleMuted_of _ _) as [on p2];
      destruct (commit p p2); try discriminate S;
      injection S as <-; exact I.
  - injection S as <-. unfold MissionLog.handleSpotifyClick,
      MissionLog.playClickSound. destruct (MissionLog.clickSoundRef c); exact I.
  - injection S as <-. exact I.
  - injection S as <-. exact I.
  - injection S as <-. intros H. discriminate H.
  - injection S as <-. unfold MissionLog.handleProgressClick.
    destruct (_ || _); [exact I|].
    destruct (JSLib.isFinite _); [|exact I].
    cbn [MissionLog.state_of MissionLog.setAudioProgress MissionLog.send
         MissionLog.isPlaying MissionLog.audioRef MissionLog.sent].
    intros H. destruct (I H) as [A T]. split; [exact A|].
    rewrite transport_app, T. reflexivity.
  - unfold MissionLog.in_player in S.
    destruct (MissionLog.comparePlayerRef c) as [p|];
      [|injection S as <-; exact I].
    destruct (step p ev); [|discriminate S]. injection S as <-. exact I.
Qed.



(** ** The click sound and the links *)

Lemma step_controls (c c' : MissionLog.Card) (ev : MissionLog.Event) :
  MissionLog.clickSoundRef c = true ->
  MissionLog.step c ev = Some c' ->
  MissionLog.clickSoundRef c' = true
  /\ MissionLog.spotifyUrl c' = MissionLog.spotifyUrl c
  /\ MissionLog.clicks c'
     = (MissionLog.clicks c + (if on_control ev then 1 else 0))%nat
  /\ MissionLog.opened c'
     = MissionLog.opened c
       ++ (if on_spotify ev then [MissionLog.spotifyUrl c] else []).
Proof.
  intros K S.
  destruct c as [u ex pl va du pr ar cs cp se cl op].
  cbn [MissionLog.clickSoundRef] in K. subst cs.
  destruct ev; cbn [MissionLog.step on_control on_spotify] in *.
  - injection S as <-. cbn. rewrite app_nil_r. repeat split; lia.
  - injection S as <-. cbv [MissionLog.toggleAudio MissionLog.playClickSound].
    cbn. destruct ar, pl; cbn; rewrite app_nil_r; repeat split; lia.
  - unfold MissionLog.toggleVideoAudio, MissionLog.playClickSound in S.
    cbn [MissionLog.clickSoundRef MissionLog.comparePlayerRef] in S.
    destruct cp as [p|].
    + destruct (toggleMuted_of _ _) as [on p2].
      destruct (commit p p2); [|discriminate S].
      injection S as <-. cbn. rewrite app_nil_r. repeat split; lia.
    + injection S as <-. cbn. rewrite app_nil_r. repeat split; lia.
  - injection S as <-. cbn. repeat split; lia.
  - injection S as <-. cbn. rewrite app_nil_r. repeat split; lia.
  - injection S as <-. cbn. rewrite app_nil_r. repeat split; lia.
  - injection S as <-. cbn. rewrite app_nil_r. repeat split; lia.
  - injection S as <-. unfold MissionLog.handleProgressClick.
    destruct (_ || _); [|destruct (JSLib.isFinite _)]; cbn;
      rewrite app_nil_r; repeat split; lia.
  - unfold MissionLog.in_player in S.
    cbn [MissionLog.comparePlayerRef] in S. destruct cp as [p|].
    + destruct (step p ev); [|discriminate S].
      injection S as <-. cbn. rewrite app_nil_r. repeat split; lia.
    + injection S as <-. cbn. rewrite app_nil_r. repeat split; lia.
Qed.

(** X23.  With the click sound loaded, a card plays it once for every
    click on one of its controls (header, play button, sound button,
    Spotify button) and for nothing else, and opens its Spotify link
    once for every click on the Spotify button and never another
    address. *)
Theorem controls_click_once
        (c c' : MissionLog.Card) (evs : list MissionLog.Event) :
  MissionLog.clickSoundRef c = true ->
  MissionLog.run c evs = Some c' ->
  MissionLog.clicks c'
  = (MissionLog.clicks c + List.length (filter on_control evs))%nat
  /\ MissionLog.opened c'
     = MissionLog.opened c
       ++ repeat (MissionLog.spotifyUrl c)
                 (List.length (filter on_spotify evs)).
Proof.
  revert c. induction evs as [|ev evs IH]; intros c K R;
    cbn [MissionLog.run] in R.
  - injection R as <-. cbn. rewrite app_nil_r. split; [lia | reflexivity].
  - destruct (MissionLog.step c ev) as [c1|] eqn:S; [|discriminate R].
    destruct (step_controls c c1 ev K S) as (K1 & U & C & O).
    destruct (IH c1 K1 R) as [C' O'].
    rewrite C', O', C, O, U. cbn [filter].
    destruct (on_control ev), (on_spotify ev); cbn [List.length repeat];
      rewrite <- ?app_assoc; cbn [app]; split; try lia; reflexivity.
Qed.

(** Header, play, Spotify, a time update, Spotify again: four click
    sounds, the link opened twice. *)
Lemma controls_click_once_witness :
  exists c',
    MissionLog.run CardSample.audio_card
      [MissionLog.HeaderClick; MissionLog.PlayButton;
       MissionLog.SpotifyButton; MissionLog.AudioTimeUpdate (Fin 1);
       MissionLog.SpotifyButton] = Some c'
    /\ MissionLog.clicks c' = 4%nat
    /\ MissionLog.opened c'
       = repeat (MissionLog.spotifyUrl CardSample.audio_card) 2.
Proof.
  eexists. split; [reflexivity|].
  apply (controls_click_once CardSample.audio_card _
           [MissionLog.HeaderClick; MissionLog.PlayButton;
            MissionLog.SpotifyButton; MissionLog.AudioTimeUpdate (Fin 1);
            MissionLog.SpotifyButton]); reflexivity.
Defined.

(** ** The starfield *)

Lemma within_spec (lo hi q : Q) :
  within lo hi (Fin q) = true <-> lo <= q <= hi.
Proof.
  cbn [within]. rewrite andb_true_iff.
  destruct (Qle_bool_spec lo q), (Qle_bool_spec q hi); intuition discriminate.
Qed.

Lemma within_finite (lo hi : Q) (a : num) :
  within lo hi a = true -> exists q, a = Fin q /\ lo <= q <= hi.
Proof.
  destruct a as [| |q|]; try discriminate. intros W.
  exists q. split; [reflexivity|]. now apply within_spec.
Qed.

Lemma pixels_finite (a : num) :
  pixels a = true -> exists q, a = Fin q /\ 0 <= q.
Proof.
  destruct a as [| |q|]; try discriminate. cbn [pixels]. intros W.
  exists q. split; [reflexivity|]. now destruct (Qle_bool_spec 0 q).
Qed.

Lemma isFinite_spec (a : num) :
  JSLib.isFinite a = true -> exists q, a = Fin q.
Proof. destruct a as [| |q|]; try discriminate. now exists q. Qed.

Section Sky.

Variable Math_PI : num.
Variable Math_sin : num -> num.
Variable Math_random : nat -> num.

Hypothesis PI_finite : JSLib.isFinite Math_PI = true.
Hypothesis sin_range : forall q, within (- (1)) 1 (Math_sin (Fin q)) = true.
Hypothesis random_range : forall k, unit_random (Math_random k) = true.

Lemma random_cases (k : nat) :
  exists r, Math_random k = Fin r /\ 0 <= r < 1.
Proof.
  pose proof (random_range k) as R.
  destruct (Math_random k) as [| |r|]; try discriminate R.
  exists r. split; [reflexivity|]. cbn [unit_random] in R.
  apply andb_true_iff in R as [R0 R1]. unfold Qlt_bool in R1.
  destruct (Qle_bool_spec 0 r); [|discriminate].
  destruct (Qle_bool_spec 1 r); [discriminate|]. lra.
Qed.

Lemma newStar_ok (W H : Q) (k : nat) :
  0 <= W -> 0 <= H ->
  star_ok W H (Starfield.newStar Math_PI Math_random (Fin W) (Fin H) k).
Proof.
  intros W0 H0. unfold Starfield.newStar.
  destruct (random_cases k) as (r0 & -> & R0).
  destruct (random_cases (k + 1)) as (r1 & -> & R1).
  destruct (random_cases (k + 2)) as (r2 & -> & R2).
  destruct (random_cases (k + 3)) as (r3 & -> & R3).
  destruct (random_cases (k + 4)) as (r4 & -> & R4).
  destruct (random_cases (k + 5)) as (r5 & -> & R5).
  destruct (random_cases (k + 6)) as (r6 & -> & R6).
  destruct (random_cases (k + 7)) as (r7 & -> & R7).
  destruct (isFinite_spec _ PI_finite) as (pi & ->).
  unfold star_ok.
  cbn [Starfield.x Starfield.y Starfield.size Starfield.opacity
       Starfield.twinkleSpeed Starfield.twinklePhase Starfield.driftX
       Starfield.driftY JS.mul JS.sub JSLib.add JSLib.isFinite].
  rewrite !within_spec.
  repeat split; try lra; nra.
Qed.

Lemma pushStars_ok (W H : Q) (count : nat) :
  0 <= W -> 0 <= H ->
  forall k,
    List.length
      (Starfield.pushStars Math_PI Math_random count (Fin W) (Fin H) k) = count
    /\ Forall (star_ok W H)
         (Starfield.pushStars Math_PI Math_random count (Fin W) (Fin H) k).
Proof.
  intros W0 H0. induction count as [|n IH]; intros k;
    cbn [Starfield.pushStars List.length].
  - split; [reflexivity | constructor].
  - destruct (IH (k + 8)%nat) as [L F]. split; [now rewrite L|].
    constructor; [now apply newStar_ok | exact F].
Qed.

Lemma move_ok (W H : Q) (star : Starfield.Star) :
  0 <= W -> 0 <= H ->
  star_ok W H star -> star_ok W H (Starfield.move (Fin W) (Fin H) star).
Proof.
  intros W0 H0 (X & Y & Sz & Op & Sp & Ph & Dx & Dy).
  destruct star as [x y sz op sp ph dx dy].
  cbn [Starfield.x Starfield.y Starfield.size Starfield.opacity
       Starfield.twinkleSpeed Starfield.twinklePhase Starfield.driftX
       Starfield.driftY] in *.
  apply within_finite in X as (qx & -> & X).
  apply within_finite in Y as (qy & -> & Y).
  pose proof Dx as Dx'. pose proof Dy as Dy'.
  apply within_finite in Dx' as (qdx & Ex & Dx').
  apply within_finite in Dy' as (qdy & Ey & Dy').
  unfold star_ok, Starfield.move.
  cbn [Starfield.x Starfield.y Starfield.size Starfield.opacity
       Starfield.twinkleSpeed Starfield.twinklePhase Starfield.driftX
       Starfield.driftY].
  repeat split; try assumption; subst dx dy; cbn [JSLib.add gt];
    unfold Qlt_bool;
    repeat match goal with
           | |- context [Qle_bool ?a ?b] =>
               destruct (Qle_bool_spec a b); cbn [negb gt]; unfold Qlt_bool
           end;
    apply within_spec; lra.
Qed.

Lemma draw_faint (W H : Q) (t : Q) (star : Starfield.Star) :
  star_ok W H star ->
  forallb draw_ok (Starfield.draw Math_PI Math_sin (Fin t) star) = true.
Proof.
  intros (X & Y & Sz & Op & Sp & Ph & Dx & Dy).
  destruct star as [x y sz op sp ph dx dy].
  cbn [Starfield.x Starfield.y Starfield.size Starfield.opacity
       Starfield.twinkleSpeed Starfield.twinklePhase Starfield.driftX
       Starfield.driftY] in *.
  apply within_finite in Sz as (qs & -> & Sz).
  apply within_finite in Op as (qo & -> & Op).
  apply within_finite in Sp as (qp & -> & Sp).
  apply isFinite_spec in Ph as (qh & ->).
  unfold Starfield.draw, Starfield.currentOpacity.
  cbn [Starfield.x Starfield.y Starfield.size Starfield.opacity
       Starfield.twinkleSpeed Starfield.twinklePhase JS.mul JSLib.add].
  destruct (within_finite _ _ _ (sin_range (t * qp + qh))) as (tw & -> & Tw).
  cbn [JS.mul JSLib.add gt].
  rewrite forallb_app. apply andb_true_iff. split.
  - cbn [forallb draw_ok andb]. rewrite !andb_true_r.
    apply andb_true_iff. split; apply within_spec; [lra | nra].
  - destruct (Qlt_bool 1 qs); [|reflexivity].
    cbn [forallb draw_ok andb JS.mul]. rewrite !andb_true_r.
    apply andb_true_iff. split; apply within_spec; [lra | nra].
Qed.

Lemma frame_faint (W H t : Q) (stars : list Starfield.Star) :
  Forall (star_ok W H) stars ->
  forallb draw_ok (flat_map (Starfield.draw Math_PI Math_sin (Fin t)) stars)
  = true.
Proof.
  induction 1 as [|st l S F IH]; [reflexivity|].
  cbn [flat_map]. rewrite forallb_app, IH, (draw_faint W H t st S).
  reflexivity.
Qed.

Lemma animate_ok (count : nat) (s : Starfield.Sky) :
  sky_ok count s -> sky_ok count (Starfield.animate Math_PI Math_sin s).
Proof.
  intros (W & H & EW & EH & W0 & H0 & L & F & T & D).
  assert (M : Forall (star_ok W H)
                (map (Starfield.move (Fin W) (Fin H)) (Starfield.stars s))).
  { apply Forall_map. revert F. apply Forall_impl.
    intros st. now apply move_ok. }
  destruct (isFinite_spec _ T) as (t & Et).
  exists W, H. unfold Starfield.animate, Starfield.frame.
  cbn [Starfield.width Starfield.height Starfield.stars Starfield.time
       Starfield.drawn].
  rewrite EW, EH, Et.
  repeat split; try assumption.
  - now rewrite length_map.
  - rewrite forallb_app, D. cbn [forallb draw_ok andb].
    now apply (frame_faint W H).
Qed.

Lemma generateStars_ok (n W H : Q) (s : Starfield.Sky) :
  0 <= W -> 0 <= H ->
  JSLib.isFinite (Starfield.time s) = true ->
  forallb draw_ok (Starfield.drawn s) = true ->
  exists s',
    Starfield.generateStars Math_PI Math_random (Fin n)
      (Starfield.setCanvasSize (Fin W) (Fin H) s) = Some s'
    /\ sky_ok (Z.to_nat (Qceiling n)) s'
    /\ Starfield.taken s' = (Starfield.taken s + 8 * Z.to_nat (Qceiling n))%nat
    /\ Starfield.time s' = Starfield.time s
    /\ Starfield.drawn s' = Starfield.drawn s.
Proof.
  intros W0 H0 T D.
  unfold Starfield.generateStars, Starfield.setCanvasSize.
  cbn [Starfield.iterations Starfield.width Starfield.height
       Starfield.stars Starfield.time Starfield.drawn Starfield.taken].
  eexists. split; [reflexivity|].
  destruct (pushStars_ok W H (Z.to_nat (Qceiling n)) W0 H0 (Starfield.taken s))
    as [L F].
  split; [|repeat split].
  exists W, H.
  cbn [Starfield.width Starfield.height Starfield.stars Starfield.time
       Starfield.drawn].
  repeat split; assumption.
Qed.

Lemma step_sky_ok (n : Q) (s : Starfield.Sky) (ev : Starfield.Event) :
  resize_ok ev = true ->
  sky_ok (Z.to_nat (Qceiling n)) s ->
  exists s',
    Starfield.step Math_PI Math_sin Math_random (Fin n) s ev = Some s'
    /\ sky_ok (Z.to_nat (Qceiling n)) s'.
Proof.
  intros R I. destruct ev as [|w h]; cbn [Starfield.step].
  - eexists. split; [reflexivity|]. now apply animate_ok.
  - cbn [resize_ok] in R. apply andb_true_iff in R as [Rw Rh].
    apply pixels_finite in Rw as (W & -> & W0).
    apply pixels_finite in Rh as (H & -> & H0).
    destruct I as (_ & _ & _ & _ & _ & _ & _ & _ & T & D).
    destruct (generateStars_ok n W H s W0 H0 T D) as (s' & E & I' & _).
    exists s'. split; [exact E | exact I'].
Qed.

Lemma run_sky_ok (n : Q) (evs : list Starfield.Event) :
  forallb resize_ok evs = true ->
  forall s,
    sky_ok (Z.to_nat (Qceiling n)) s ->
    exists s',
      Starfield.run Math_PI Math_sin Math_random (Fin n) s evs = Some s'
      /\ sky_ok (Z.to_nat (Qceiling n)) s'.
Proof.
  induction evs as [|ev evs IH]; intros R s I; cbn [Starfield.run].
  - exists s. split; [reflexivity | exact I].
  - cbn [forallb] in R. apply andb_true_iff in R as [R1 R2].
    destruct (step_sky_ok n s ev R1 I) as (s1 & -> & I1).
    now apply IH.
Qed.

Lemma mount_sky_ok (n W H : Q) :
  0 <= W -> 0 <= H ->
  exists s,
    Starfield.mount Math_PI Math_sin Math_random true (Fin n) (Fin W) (Fin H)
    = Some s
    /\ sky_ok (Z.to_nat (Qceiling n)) s.
Proof.
  intros W0 H0. unfold Starfield.mount. cbn [negb].
  destruct (generateStars_ok n W H
              (Starfield.mkSky (Fin W) (Fin H) [] (Fin 0) [] O) W0 H0
              eq_refl eq_refl) as (s' & -> & I & _).
  eexists. split; [reflexivity|]. now apply animate_ok.
Qed.




End Sky.



